(** * Offline tile cache and bulk preloader of the Semana Santa tracker

    A shallow embedding of [src/services/tile-cache.ts],
    [src/services/tile-preloader.ts] and [src/hooks/use-tile-preload.ts].

    Conventions of the embedding.
    - JavaScript numbers are idealised: latitudes and longitudes are real
      numbers, tile indices, zoom levels and counters are integers ([Z]),
      and the ratio behind a percentage is an exact rational.  The rounding
      error of IEEE doubles is outside the model.
    - An [async] function is a state transformer that ends in one of
      [Resolved], [Rejected] or [Pending]; [try]/[catch] is [try_catch].
    - The environment (whether the database opens, which storage requests
      fail, what the network answers) is a record of oracles. *)

From Stdlib Require Import ZArith List Bool Lia Reals Lra QArith Qround.
From Stdlib Require Import Permutation Ascii.
From Equations Require Import Equations.
From stdpp Require Import gmap strings pretty.
Import ListNotations.

Local Open Scope Z_scope.

(** ** Coordinates *)

Module XY.
Record t : Set := mk { x : Z; y : Z }.
End XY.

Module Tile.
Record t : Set := mk { z : Z; x : Z; y : Z }.
End Tile.

Record Bounds : Type := mkBounds {
  north : R;
  south : R;
  east : R;
  west : R
}.

(** ** [Math] on idealised numbers *)

Definition Math_floor (r : R) : Z := Zfloor r.
Definition Math_pow (b : R) (e : Z) : R := powerRZ b e.
Definition Math_log (r : R) : R := ln r.
Definition Math_tan (r : R) : R := tan r.
Definition Math_cos (r : R) : R := cos r.
Definition Math_PI : R := PI.

(** ** [latLngToTile] (tile-cache.ts, 243-250) *)

Definition latLngToTile (lat lng : R) (zoom : Z) : XY.t :=
  let x := Math_floor (((lng + 180) / 360) * Math_pow 2 zoom)%R in
  let y :=
    Math_floor
      (((1 - Math_log (Math_tan ((lat * Math_PI) / 180)
                       + 1 / Math_cos ((lat * Math_PI) / 180)) / Math_PI) / 2)
       * Math_pow 2 zoom)%R in
  XY.mk x y.

(** The formula as the specification words it: [sec] is the secant and
    [2^zoom] a power with a natural exponent. *)




(** ** [getTilesForBounds] (tile-cache.ts, 255-273) *)

(** [for (let i = lo; i <= hi; i++) body(i)] over a threaded state. *)
Equations? for_upto {St : Type} (i hi : Z) (body : Z -> St -> St) (s : St) : St
  by wf (Z.to_nat (hi + 1 - i)) lt :=
  for_upto i hi body s with Z_le_dec i hi => {
    | left _ := for_upto (i + 1) hi body (body i s);
    | right _ := s }.
Proof. lia. Qed.

(** [for (const z of zoomLevels) body(z)] over a threaded state. *)
Definition for_of {A St : Type} (l : list A) (body : A -> St -> St) (s : St) : St :=
  fold_left (fun acc a => body a acc) l s.

Definition push {A : Type} (a : A) (arr : list A) : list A := arr ++ [a].

Definition getTilesForBounds (bounds : Bounds) (zoomLevels : list Z) : list Tile.t :=
  let tiles : list Tile.t := [] in
  for_of zoomLevels (fun z tiles =>
    let topLeft := latLngToTile (north bounds) (west bounds) z in
    let bottomRight := latLngToTile (south bounds) (east bounds) z in
    for_upto (XY.x topLeft) (XY.x bottomRight) (fun x tiles =>
      for_upto (XY.y topLeft) (XY.y bottomRight) (fun y tiles =>
        push (Tile.mk z x y) tiles) tiles) tiles) tiles.

(** ** [TILE_CACHE_CONFIG] (tile-cache.ts, 10-35) *)

Module TILE_CACHE_CONFIG.
Definition dbName : string := "SemanaSantaTileCache".
Definition dbVersion : Z := 1.
Definition storeName : string := "tiles".
Definition huelvaBounds : Bounds :=
  mkBounds (3728 / 100)%R (3724 / 100)%R (- (692 / 100))%R (- (697 / 100))%R.
Definition zoomLevels : list Z := [14; 15; 16; 17; 18].
Definition cdnUrl : string :=
  "https://cartodb-basemaps-{s}.global.ssl.fastly.net/rastertiles/voyager/{z}/{x}/{y}.png".
Definition fallbackUrl : string :=
  "https://{s}.tile.openstreetmap.org/{z}/{x}/{y}.png".
Definition subdomains : list string := ["a"; "b"; "c"; "d"].
End TILE_CACHE_CONFIG.

Definition getHuelvaTiles : list Tile.t :=
  getTilesForBounds TILE_CACHE_CONFIG.huelvaBounds TILE_CACHE_CONFIG.zoomLevels.

(** The inclusive integer interval [lo..hi], empty when [hi < lo]. *)
Definition zrange (lo hi : Z) : list Z :=
  map (fun k => lo + Z.of_nat k) (seq 0 (Z.to_nat (hi + 1 - lo))).

(** What the specification describes: per zoom level, in order, the cross
    product of the x-range and the y-range. *)
Definition tile_grid (z x0 x1 y0 y1 : Z) : list Tile.t :=
  flat_map (fun x => map (fun y => Tile.mk z x y) (zrange y0 y1)) (zrange x0 x1).

(** ** Asynchronous computations

    An [async] function over a state [St]: it runs on the single event
    loop, changes the state and settles.  [Pending] is a promise that has
    not settled within the steps the model was given. *)

Inductive Error : Set :=
  | OpenFailed          (* indexedDB.open fired onerror *)
  | NoObjectStore       (* db.transaction threw: the object store is missing *)
  | RequestFailed       (* an IDBRequest fired onerror *)
  | FetchFailed         (* fetch rejected *)
  | NetworkError        (* new Error('Network error'): response.ok is false *)
  | BodyFailed          (* response.blob() rejected *)
  | StorageFailed.      (* an AsyncStorage call rejected *)

Inductive outcome (A : Type) : Type :=
  | Resolved (a : A)
  | Rejected (e : Error)
  | Pending.
Arguments Resolved {A} a.
Arguments Rejected {A} e.
Arguments Pending {A}.

Definition async (St A : Type) : Type := St -> outcome A * St.

Definition ret {St A : Type} (a : A) : async St A := fun s => (Resolved a, s).

Definition throw {St A : Type} (e : Error) : async St A := fun s => (Rejected e, s).

Definition bind {St A B : Type} (m : async St A) (k : A -> async St B) : async St B :=
  fun s =>
    match m s with
    | (Resolved a, s') => k a s'
    | (Rejected e, s') => (Rejected e, s')
    | (Pending, s') => (Pending, s')
    end.

Definition try_catch {St A : Type} (m : async St A) (handler : Error -> async St A)
  : async St A :=
  fun s =>
    match m s with
    | (Rejected e, s') => handler e s'
    | settled => settled
    end.

Definition get_state {St : Type} : async St St := fun s => (Resolved s, s).
Definition modify {St : Type} (f : St -> St) : async St unit := fun s => (Resolved tt, f s).

(** Runs a computation on a component of the state. *)
Definition zoom_in {St Sub A : Type} (proj : St -> Sub) (upd : Sub -> St -> St)
  (m : async Sub A) : async St A :=
  fun s => let '(r, sub) := m (proj s) in (r, upd sub s).

(** [Promise.all]: every member runs to its end; the result rejects with the
    first rejection among them. *)
Fixpoint Promise_all {St A : Type} (ms : list (async St A)) : async St (list A) :=
  fun s =>
    match ms with
    | [] => (Resolved [], s)
    | m :: rest =>
        let '(r, s1) := m s in
        let '(rs, s2) := Promise_all rest s1 in
        (match r, rs with
         | Rejected e, _ => Rejected e
         | Pending, _ => Pending
         | Resolved a, Resolved l => Resolved (a :: l)
         | Resolved _, Rejected e => Rejected e
         | Resolved _, Pending => Pending
         end, s2)
    end.

Declare Scope async_scope.
Delimit Scope async_scope with async.
Notation "x <- m ;; k" := (bind m (fun x => k))
  (at level 100, m at next level, right associativity) : async_scope.
Notation "m ;; k" := (bind m (fun _ => k))
  (at level 100, right associativity) : async_scope.
Local Open Scope async_scope.

(** ** JavaScript numbers beyond the integers *)

Inductive number (A : Type) : Type :=
  | Fin (a : A)
  | PosInfinity
  | NegInfinity
  | NaN.
Arguments Fin {A} a.
Arguments PosInfinity {A}.
Arguments NegInfinity {A}.
Arguments NaN {A}.

(** [a / b] on integer operands. *)
Definition js_div (a b : Z) : number Q :=
  if b =? 0 then
    if a =? 0 then NaN else if 0 <? a then PosInfinity else NegInfinity
  else Fin (inject_Z a / inject_Z b)%Q.

(** [n * c] for an integer [c]. *)
Definition js_mul (n : number Q) (c : Z) : number Q :=
  match n with
  | Fin q => Fin (q * inject_Z c)%Q
  | PosInfinity => if c =? 0 then NaN else if 0 <? c then PosInfinity else NegInfinity
  | NegInfinity => if c =? 0 then NaN else if 0 <? c then NegInfinity else PosInfinity
  | NaN => NaN
  end.

(** [Math.round]: the nearest integer, ties towards +Infinity. *)
Definition Math_round (n : number Q) : number Z :=
  match n with
  | Fin q => Fin (Qfloor (q + (1 # 2))%Q)
  | PosInfinity => PosInfinity
  | NegInfinity => NegInfinity
  | NaN => NaN
  end.

(** [n >= c] for an integer [c]. *)
Definition js_ge (n : number Z) (c : Z) : bool :=
  match n with
  | Fin z => c <=? z
  | PosInfinity => true
  | NegInfinity | NaN => false
  end.

(** ** [TileCache] (tile-cache.ts, 47-146) *)

Definition Blob : Set := list Byte.byte.

Module TileCache.

Inductive Request : Set :=
  | ReqGet (key : string)
  | ReqPut (key : string)
  | ReqCount
  | ReqClear.

(** The storage engine as the code meets it. *)
Record Env : Type := mkEnv {
  open_ok : bool;                     (* indexedDB.open succeeds *)
  request_fails : Request -> bool     (* the request fires onerror *)
}.

(** [db] is [this.db] (false for null); [idb] is the database named
    [dbName] on disk: absent, or its object stores by name. *)
Record t : Type := mk {
  db : bool;
  idb : option (gmap string (gmap string Blob))
}.

Definition dbName : string := TILE_CACHE_CONFIG.dbName.
Definition storeName : string := TILE_CACHE_CONFIG.storeName.

(** [onupgradeneeded] runs when the database is created. *)
Definition onupgradeneeded (stores : gmap string (gmap string Blob))
  : gmap string (gmap string Blob) :=
  match stores !! storeName with
  | None => <[storeName := ∅]> stores
  | Some _ => stores
  end.

Definition init (env : Env) : async t unit :=
  fun s =>
    if open_ok env then
      let idb' := match idb s with
                  | None => onupgradeneeded ∅
                  | Some stores => stores
                  end in
      (Resolved tt, mk true (Some idb'))
    else (Rejected OpenFailed, s).

Definition getKey (z x y : Z) : string :=
  pretty z +:+ "/" +:+ pretty x +:+ "/" +:+ pretty y.

(** [if (!this.db) await this.init()] *)
Definition ensure_db (env : Env) : async t unit :=
  s <- get_state ;;
  if negb (db s) then init env else ret tt.

(** [this.db.transaction([this.storeName], mode).objectStore(this.storeName)] *)
Definition objectStore : async t (gmap string Blob) :=
  fun s =>
    match idb s with
    | Some stores =>
        match stores !! storeName with
        | Some objs => (Resolved objs, s)
        | None => (Rejected NoObjectStore, s)
        end
    | None => (Rejected NoObjectStore, s)
    end.

Definition request (env : Env) (r : Request) : async t unit :=
  if request_fails env r then throw RequestFailed else ret tt.

Definition write_store (objs : gmap string Blob) : async t unit :=
  modify (fun s =>
    mk (db s) (match idb s with
               | Some stores => Some (<[storeName := objs]> stores)
               | None => None
               end)).

Definition getTile (env : Env) (z x y : Z) : async t (option Blob) :=
  ensure_db env ;;
  store <- objectStore ;;
  request env (ReqGet (getKey z x y)) ;;
  ret (store !! getKey z x y).

Definition saveTile (env : Env) (z x y : Z) (blob : Blob) : async t unit :=
  ensure_db env ;;
  store <- objectStore ;;
  request env (ReqPut (getKey z x y)) ;;
  write_store (<[getKey z x y := blob]> store).

Definition hasTile (env : Env) (z x y : Z) : async t bool :=
  tile <- getTile env z x y ;;
  ret (match tile with Some _ => true | None => false end).

Record Stats : Set := mkStats { tileCount : nat }.

Definition getStats (env : Env) : async t Stats :=
  ensure_db env ;;
  store <- objectStore ;;
  request env ReqCount ;;
  ret (mkStats (size store)).

Definition clear (env : Env) : async t unit :=
  ensure_db env ;;
  store <- objectStore ;;
  request env ReqClear ;;
  write_store ∅.

End TileCache.

(** ** [PreloadProgress] (tile-preloader.ts, 8-14) *)

Record PreloadProgress : Type := mkProgress {
  total : Z;
  loaded : Z;
  failed : Z;
  percentage : number Z;
  isComplete : bool
}.

(** ** [TilePreloader] (tile-preloader.ts, 30-177) *)

(** [s.replace(pat, rep)] for a string pattern: the first occurrence only. *)
Fixpoint replace (pat rep s : string) : string :=
  if String.prefix pat s then rep +:+ String.substring (String.length pat) (String.length s) s
  else match s with
       | EmptyString => EmptyString
       | String c s' => String c (replace pat rep s')
       end.

Module TilePreloader.

Inductive FetchResult : Set :=
  | FetchRejects                                   (* fetch itself rejects *)
  | Response (ok : bool) (body : option Blob).     (* [None]: blob() rejects *)

Record Env : Type := mkEnv {
  cacheEnv : TileCache.Env;
  network : string -> FetchResult;        (* what a fetch of the URL yields *)
  hasBridge : bool;                       (* window.ReactNativeWebView is set *)
  completionOrder : list Tile.t -> list Tile.t
    (* the order in which the attempts of one batch reach their update *)
}.

(** The fields of the object that change, or that the methods read. *)
Record t : Type := mk {
  tiles : list Tile.t;
  isPreloading : bool;
  progress : PreloadProgress
}.

(** The page: the preloader, the tile cache, and what left the page. *)
Record World : Type := mkWorld {
  preloader : t;
  cache : TileCache.t;
  events : list PreloadProgress;     (* details of 'tilePreloadProgress' events *)
  messages : list PreloadProgress;   (* progress posted to ReactNativeWebView *)
  fetches : list string              (* URLs passed to fetch *)
}.

Definition cdnUrl : string := TILE_CACHE_CONFIG.cdnUrl.
Definition subdomains : list string := TILE_CACHE_CONFIG.subdomains.

(** The object as [generateTilePreloaderJS] writes it. *)
Definition create (tiles : list Tile.t) : t :=
  mk tiles false (mkProgress (Z.of_nat (length tiles)) 0 0 (Fin 0) false).

Definition getTileUrl (z x y : Z) : string :=
  let subdomain :=
    nth (Z.to_nat (Z.abs (x + y) mod Z.of_nat (length subdomains))) subdomains
        "undefined" in
  replace "{y}" (pretty y)
    (replace "{x}" (pretty x)
      (replace "{z}" (pretty z)
        (replace "{s}" subdomain cdnUrl))).

Definition with_preloader (f : t -> t) : async World unit :=
  modify (fun w => mkWorld (f (preloader w)) (cache w) (events w) (messages w) (fetches w)).

Definition with_progress (f : PreloadProgress -> PreloadProgress) : async World unit :=
  with_preloader (fun p => mk (tiles p) (isPreloading p) (f (progress p))).

Definition on_cache {A : Type} (m : async TileCache.t A) : async World A :=
  zoom_in cache
    (fun c w => mkWorld (preloader w) c (events w) (messages w) (fetches w)) m.

Definition dispatchEvent (detail : PreloadProgress) : async World unit :=
  modify (fun w =>
    mkWorld (preloader w) (cache w) (push detail (events w)) (messages w) (fetches w)).

Definition postMessage (payload : PreloadProgress) : async World unit :=
  modify (fun w =>
    mkWorld (preloader w) (cache w) (events w) (push payload (messages w)) (fetches w)).

Definition fetch (env : Env) (url : string) : async World (option Blob * bool) :=
  modify (fun w =>
    mkWorld (preloader w) (cache w) (events w) (messages w) (push url (fetches w))) ;;
  match network env url with
  | FetchRejects => throw FetchFailed
  | Response ok body => ret (body, ok)
  end.

Definition updateProgress (env : Env) : async World unit :=
  with_progress (fun pr =>
    mkProgress (total pr) (loaded pr) (failed pr)
      (Math_round (js_mul (js_div (loaded pr + failed pr) (total pr)) 100))
      (isComplete pr)) ;;
  with_progress (fun pr =>
    mkProgress (total pr) (loaded pr) (failed pr) (percentage pr)
      (loaded pr + failed pr >=? total pr)) ;;
  w <- get_state ;;
  dispatchEvent (progress (preloader w)) ;;
  if hasBridge env then postMessage (progress (preloader w)) else ret tt.

Definition incr_loaded : async World unit :=
  with_progress (fun pr =>
    mkProgress (total pr) (loaded pr + 1) (failed pr) (percentage pr) (isComplete pr)).

Definition incr_failed : async World unit :=
  with_progress (fun pr =>
    mkProgress (total pr) (loaded pr) (failed pr + 1) (percentage pr) (isComplete pr)).

(** The first [try] block returns [Some true] when the function returned
    from inside it, [None] when control goes on to the fetch. *)
Definition preloadTile (env : Env) (tile : Tile.t) : async World bool :=
  let '(Tile.mk z x y) := tile in
  returned <-
    try_catch
      (cached <- on_cache (TileCache.getTile (cacheEnv env) z x y) ;;
       match cached with
       | Some _ => incr_loaded ;; updateProgress env ;; ret (Some true)
       | None => ret None
       end)
      (fun e => ret None) ;;
  match returned with
  | Some b => ret b
  | None =>
      try_catch
        (let url := getTileUrl z x y in
         response <- fetch env url ;;
         (if negb (snd response) then throw NetworkError else ret tt) ;;
         blob <- match fst response with
                 | Some b => ret b
                 | None => throw BodyFailed
                 end ;;
         on_cache (TileCache.saveTile (cacheEnv env) z x y blob) ;;
         incr_loaded ;;
         updateProgress env ;;
         ret true)
        (fun error =>
           incr_failed ;;
           updateProgress env ;;
           ret false)
  end.

(** [for (let i = 0; i < concurrency && tiles.length > 0; i++)
      batch.push(tiles.shift())]: the batch and what is left of the queue. *)
Fixpoint take_batch (i concurrency : Z) (tiles batch : list Tile.t)
  : list Tile.t * list Tile.t :=
  match tiles with
  | [] => (batch, [])
  | tile :: rest =>
      if i <? concurrency then take_batch (i + 1) concurrency rest (push tile batch)
      else (batch, tiles)
  end.

(** One unit of fuel per call of [processBatch]; the 50 ms pause between
    batches changes no state. *)
Fixpoint processBatch (fuel : nat) (env : Env) (concurrency : Z) (tiles : list Tile.t)
  : async World unit :=
  match fuel with
  | O => fun w => (Pending, w)
  | S fuel' =>
      let '(batch, tiles) := take_batch 0 concurrency tiles [] in
      Promise_all (map (preloadTile env) (completionOrder env batch)) ;;
      match tiles with
      | _ :: _ => processBatch fuel' env concurrency tiles
      | [] => ret tt
      end
  end.

(** [None] is the [undefined] of the early return. *)
Definition preloadAll (fuel : nat) (env : Env) (concurrency : Z)
  : async World (option PreloadProgress) :=
  w <- get_state ;;
  if isPreloading (preloader w) then ret None
  else
    with_preloader (fun p => mk (tiles p) true (progress p)) ;;
    with_preloader (fun p =>
      mk (tiles p) (isPreloading p)
         (mkProgress (Z.of_nat (length (tiles p))) 0 0 (Fin 0) false)) ;;
    updateProgress env ;;
    w <- get_state ;;
    let tiles := tiles (preloader w) in
    processBatch fuel env concurrency tiles ;;
    with_preloader (fun p => mk (TilePreloader.tiles p) false (progress p)) ;;
    w <- get_state ;;
    ret (Some (progress (preloader w))).

Record CachedCount : Type := mkCachedCount {
  cc_total : Z;
  cc_cached : Z;
  cc_percentage : number Z
}.

Definition checkCachedCount (env : Env) : async World CachedCount :=
  w <- get_state ;;
  cached <-
    for_of (tiles (preloader w))
      (fun tile (acc : async World Z) =>
         cached <- acc ;;
         try_catch
           (exists_ <- on_cache (TileCache.hasTile (cacheEnv env)
                                   (Tile.z tile) (Tile.x tile) (Tile.y tile)) ;;
            ret (if exists_ : bool then cached + 1 else cached))
           (fun e => ret cached))
      (ret 0) ;;
  w <- get_state ;;
  let n := Z.of_nat (length (tiles (preloader w))) in
  ret (mkCachedCount n cached (Math_round (js_mul (js_div cached n) 100))).

End TilePreloader.

(** ** [useTilePreload] (use-tile-preload.ts) *)

Module useTilePreload.

Definition PRELOAD_STATUS_KEY : string := "@SemanaSanta:tilesPreloaded".

Inductive StorageCall : Set :=
  | GetItem (key : string)
  | SetItem (key value : string)
  | RemoveItem (key : string).

Record Env : Type := mkEnv {
  call_fails : StorageCall -> bool    (* the AsyncStorage call rejects *)
}.

(** The three [useState] cells of the hook. *)
Record t : Type := mk {
  progress : option PreloadProgress;
  isPreloaded : bool;
  isFirstLoad : bool
}.

(** The hook and the device's AsyncStorage, with the calls made to it. *)
Record World : Type := mkWorld {
  hook : t;
  items : gmap string string;
  calls : list StorageCall
}.

(** The state of the first render. *)
Definition initial : t := mk None false true.

Definition call (env : Env) (c : StorageCall) : async World unit :=
  modify (fun w => mkWorld (hook w) (items w) (push c (calls w))) ;;
  if call_fails env c then throw StorageFailed else ret tt.

Definition AsyncStorage_getItem (env : Env) (key : string) : async World (option string) :=
  call env (GetItem key) ;;
  w <- get_state ;;
  ret (items w !! key).

Definition AsyncStorage_setItem (env : Env) (key value : string) : async World unit :=
  call env (SetItem key value) ;;
  modify (fun w => mkWorld (hook w) (<[key := value]> (items w)) (calls w)).

Definition AsyncStorage_removeItem (env : Env) (key : string) : async World unit :=
  call env (RemoveItem key) ;;
  modify (fun w => mkWorld (hook w) (delete key (items w)) (calls w)).

Definition with_hook (f : t -> t) : async World unit :=
  modify (fun w => mkWorld (f (hook w)) (items w) (calls w)).

Definition setProgress (p : option PreloadProgress) : async World unit :=
  with_hook (fun h => mk p (isPreloaded h) (isFirstLoad h)).
Definition setIsPreloaded (b : bool) : async World unit :=
  with_hook (fun h => mk (progress h) b (isFirstLoad h)).
Definition setIsFirstLoad (b : bool) : async World unit :=
  with_hook (fun h => mk (progress h) (isPreloaded h) b).

(** The effect with the empty dependency list: it runs once, after the
    first render. *)
Definition checkPreloadStatus (env : Env) : async World unit :=
  try_catch
    (status <- AsyncStorage_getItem env PRELOAD_STATUS_KEY ;;
     match status with
     | Some v => if String.eqb v "true"
                 then setIsPreloaded true ;; setIsFirstLoad false
                 else ret tt
     | None => ret tt
     end)
    (fun error => ret tt).

Definition handleProgress (env : Env) (newProgress : PreloadProgress) : async World unit :=
  setProgress (Some newProgress) ;;
  if isComplete newProgress && js_ge (percentage newProgress) 90 then
    try_catch
      (AsyncStorage_setItem env PRELOAD_STATUS_KEY "true" ;;
       setIsPreloaded true ;;
       setIsFirstLoad false)
      (fun error => ret tt)
  else ret tt.

Definition resetPreloadStatus (env : Env) : async World unit :=
  try_catch
    (AsyncStorage_removeItem env PRELOAD_STATUS_KEY ;;
     setIsPreloaded false ;;
     setIsFirstLoad true ;;
     setProgress None)
    (fun error => ret tt).

End useTilePreload.

(** ** Vocabulary of the statements *)

(** [round(100 * (loaded + failed) / total)], in the order of the
    specification. *)
Definition round_percent (k total : Z) : Z :=
  Qfloor (inject_Z 100 * inject_Z k / inject_Z total + (1 # 2))%Q.

(** A progress record after one more attempt was counted. *)
Definition count_attempt (ok : bool) (pr : PreloadProgress) : PreloadProgress :=
  if ok then mkProgress (total pr) (loaded pr + 1) (failed pr) (percentage pr) (isComplete pr)
  else mkProgress (total pr) (loaded pr) (failed pr + 1) (percentage pr) (isComplete pr).

(** The progress record as [updateProgress] leaves it. *)
Definition recomputed (pr : PreloadProgress) : PreloadProgress :=
  mkProgress (total pr) (loaded pr) (failed pr)
    (Math_round (js_mul (js_div (loaded pr + failed pr) (total pr)) 100))
    (loaded pr + failed pr >=? total pr).

(** The updates that a sequence of attempt results produces, and the
    progress record at its end. *)
Fixpoint updates (pr : PreloadProgress) (results : list bool) : list PreloadProgress :=
  match results with
  | [] => []
  | ok :: rest =>
      let pr' := recomputed (count_attempt ok pr) in
      pr' :: updates pr' rest
  end.

Fixpoint progress_after (pr : PreloadProgress) (results : list bool) : PreloadProgress :=
  match results with
  | [] => pr
  | ok :: rest => progress_after (recomputed (count_attempt ok pr)) rest
  end.

Definition count_of (b : bool) (results : list bool) : Z :=
  Z.of_nat (length (List.filter (Bool.eqb b) results)).

(** The number of tiles for which [hasTile] answers true, the checks being
    made in order on the cache as the one before left it. *)
Fixpoint tiles_reported_cached (env : TileCache.Env) (tiles : list Tile.t)
  (c : TileCache.t) : Z :=
  match tiles with
  | [] => 0
  | tile :: rest =>
      let '(r, c') := TileCache.hasTile env (Tile.z tile) (Tile.x tile) (Tile.y tile) c in
      (match r with Resolved true => 1 | _ => 0 end) + tiles_reported_cached env rest c'
  end.

(** The attempts counted so far: loaded + failed. *)
Definition attempted (pr : PreloadProgress) : Z := loaded pr + failed pr.

(** What a store looks like once its database is open on the object store. *)
Definition holds (s : TileCache.t) (stores : gmap string (gmap string Blob))
  (objs : gmap string Blob) : Prop :=
  s = TileCache.mk true (Some stores) /\ stores !! TileCache.storeName = Some objs.

(** The page after [updateProgress]. *)
Definition after_update (env : TilePreloader.Env) (w : TilePreloader.World)
  : TilePreloader.World :=
  let p := TilePreloader.preloader w in
  let pr := recomputed (TilePreloader.progress p) in
  TilePreloader.mkWorld
    (TilePreloader.mk (TilePreloader.tiles p) (TilePreloader.isPreloading p) pr)
    (TilePreloader.cache w)
    (TilePreloader.events w ++ [pr])
    (if TilePreloader.hasBridge env then TilePreloader.messages w ++ [pr]
     else TilePreloader.messages w)
    (TilePreloader.fetches w).

(** The page after one attempt that ended with [ok], left the cache as [c]
    and fetched the URLs [urls]. *)
Definition after_attempt (env : TilePreloader.Env) (ok : bool) (c : TileCache.t)
  (urls : list string) (w : TilePreloader.World) : TilePreloader.World :=
  let p := TilePreloader.preloader w in
  after_update env
    (TilePreloader.mkWorld
       (TilePreloader.mk (TilePreloader.tiles p) (TilePreloader.isPreloading p)
          (count_attempt ok (TilePreloader.progress p)))
       c (TilePreloader.events w) (TilePreloader.messages w) urls).

(** [w'] is [w] after attempts with the given results, in that order. *)
Definition attempts_from (env : TilePreloader.Env) (w : TilePreloader.World)
  (results : list bool) (w' : TilePreloader.World) : Prop :=
  let p := TilePreloader.preloader w in
  let p' := TilePreloader.preloader w' in
  TilePreloader.tiles p' = TilePreloader.tiles p /\
  TilePreloader.isPreloading p' = TilePreloader.isPreloading p /\
  TilePreloader.progress p' = progress_after (TilePreloader.progress p) results /\
  TilePreloader.events w'
  = TilePreloader.events w ++ updates (TilePreloader.progress p) results /\
  TilePreloader.messages w'
  = TilePreloader.messages w
    ++ (if TilePreloader.hasBridge env then updates (TilePreloader.progress p) results
        else []).

(** Whether the attempt on a tile succeeds on a page whose cache is [c]:
    the tile is cached already, or the fetch answers with an ok response
    whose body can be read and stored. *)
Definition attempt_succeeds (env : TilePreloader.Env) (tile : Tile.t) (c : TileCache.t)
  : bool :=
  let '(Tile.mk z x y) := tile in
  match TileCache.getTile (TilePreloader.cacheEnv env) z x y c with
  | (Resolved (Some _), _) => true
  | (_, c1) =>
      match TilePreloader.network env (TilePreloader.getTileUrl z x y) with
      | TilePreloader.Response true (Some blob) =>
          match TileCache.saveTile (TilePreloader.cacheEnv env) z x y blob c1 with
          | (Resolved _, _) => true
          | _ => false
          end
      | _ => false
      end
  end.

(** The progress record that [preloadAll] starts a run with. *)
Definition fresh_progress (n : nat) : PreloadProgress :=
  mkProgress (Z.of_nat n) 0 0 (Fin 0) false.

(** One turn of the loop of [checkCachedCount]. *)
Definition check_tile (env : TilePreloader.Env) (tile : Tile.t)
  (acc : async TilePreloader.World Z) : async TilePreloader.World Z :=
  cached <- acc ;;
  try_catch
    (exists_ <- TilePreloader.on_cache
                  (TileCache.hasTile (TilePreloader.cacheEnv env)
                     (Tile.z tile) (Tile.x tile) (Tile.y tile)) ;;
     ret (if exists_ : bool then cached + 1 else cached))
    (fun e => ret cached).

(** ** A scenario: a 2 x 2 region at one zoom level, one fetch failing *)

Module Scenario.

Definition region : list Tile.t :=
  [Tile.mk 1 0 0; Tile.mk 1 0 1; Tile.mk 1 1 0; Tile.mk 1 1 1].

Definition network (url : string) : TilePreloader.FetchResult :=
  if String.eqb url (TilePreloader.getTileUrl 1 0 1) then TilePreloader.FetchRejects
  else TilePreloader.Response true (Some []).

Definition storage : TileCache.Env := TileCache.mkEnv true (fun _ => false).

(** The members of a batch reach their updates last to first. *)
Definition env : TilePreloader.Env :=
  TilePreloader.mkEnv storage network true (@rev Tile.t).

Definition page : TilePreloader.World :=
  TilePreloader.mkWorld (TilePreloader.create region) (TileCache.mk false None) [] [] [].

Definition unopened : TileCache.t := TileCache.mk false None.

Definition host : useTilePreload.Env := useTilePreload.mkEnv (fun _ => false).

Definition device : useTilePreload.World :=
  useTilePreload.mkWorld useTilePreload.initial ∅ [].

Definition done : PreloadProgress := mkProgress 4 4 0 (Fin 100) true.

End Scenario.

(** ** [L.TileLayer.Cached] (tile-cache.ts, 152-231)

    The layer as far as it is written in this repository.  Leaflet's own
    [_tileOnLoad], [_tileOnError] and [getTileUrl] are recorded as calls or
    taken from the environment; the image element is modelled by its
    [src] and its two handlers, and the browser by the object URLs that
    are alive and by whether a blob decodes as an image.

    The page does not wait for the write of a fetched blob, and
    [createTile] returns the element before its load has begun.  Nothing
    else touches the store or the element while a tile loads, so both are
    run here at the place of their call: a world is the page once the
    requests of the load have settled, and the element that [createTile]
    gives is the element as the load leaves it. *)

Module CachedTileLayer.

Inductive LoadHandler : Set :=
  | LeafletOnLoad                       (* L.bind(this._tileOnLoad, this, done, tile) *)
  | RevokeThenOnLoad (url : nat).       (* revokeObjectURL(url); _tileOnLoad(null, tile) *)

Inductive ErrorHandler : Set :=
  | LeafletOnError                      (* L.bind(this._tileOnError, this, done, tile) *)
  | RevokeThenRefetch (url : nat).      (* revokeObjectURL(url); _fetchAndCacheTile(tile, coords) *)

Record Img : Set := mkImg {
  src : option nat;
  onload : LoadHandler;
  onerror : ErrorHandler
}.

(** Calls into Leaflet; [withDone] tells whether the first argument is the
    [done] callback of [createTile]. *)
Inductive Signal : Set :=
  | TileOnLoad (withDone : bool)
  | TileOnError (withDone : bool).

Record Env : Type := mkEnv {
  cacheEnv : TileCache.Env;
  network : string -> TilePreloader.FetchResult;
  decodes : Blob -> bool;               (* the blob loads as an image *)
  getTileUrl : Tile.t -> string         (* Leaflet's this.getTileUrl(coords) *)
}.

Record World : Type := mkWorld {
  cache : TileCache.t;
  fetches : list string;
  tile : Img;
  signals : list Signal;
  urls : gmap nat Blob;                 (* the object URLs that are alive *)
  nextUrl : nat
}.

Definition on_cache {A : Type} (m : async TileCache.t A) : async World A :=
  zoom_in cache
    (fun c w => mkWorld c (fetches w) (tile w) (signals w) (urls w) (nextUrl w)) m.

Definition fetch (env : Env) (url : string) : async World (option Blob * bool) :=
  modify (fun w =>
    mkWorld (cache w) (push url (fetches w)) (tile w) (signals w) (urls w) (nextUrl w)) ;;
  match network env url with
  | TilePreloader.FetchRejects => throw FetchFailed
  | TilePreloader.Response ok body => ret (body, ok)
  end.

Definition with_tile (f : Img -> Img) : async World unit :=
  modify (fun w =>
    mkWorld (cache w) (fetches w) (f (tile w)) (signals w) (urls w) (nextUrl w)).

Definition call_leaflet (s : Signal) : async World unit :=
  modify (fun w =>
    mkWorld (cache w) (fetches w) (tile w) (push s (signals w)) (urls w) (nextUrl w)).

Definition createObjectURL (blob : Blob) : async World nat :=
  fun w =>
    (Resolved (nextUrl w),
     mkWorld (cache w) (fetches w) (tile w) (signals w)
       (<[nextUrl w := blob]> (urls w)) (S (nextUrl w))).

Definition revokeObjectURL (url : nat) : async World unit :=
  modify (fun w =>
    mkWorld (cache w) (fetches w) (tile w) (signals w) (delete url (urls w)) (nextUrl w)).

(** The image events.  Once [tile.src] is set the image loads: the
    handler that is in [tile.onload] at that time runs when the blob
    decodes, the one in [tile.onerror] otherwise. *)
Definition run_onload : async World unit :=
  w <- get_state ;;
  match onload (tile w) with
  | LeafletOnLoad => call_leaflet (TileOnLoad true)
  | RevokeThenOnLoad url =>
      revokeObjectURL url ;;
      call_leaflet (TileOnLoad false)
  end.

Definition run_onerror (refetch : async World unit) : async World unit :=
  w <- get_state ;;
  match onerror (tile w) with
  | LeafletOnError => call_leaflet (TileOnError true)
  | RevokeThenRefetch url =>
      revokeObjectURL url ;;
      refetch
  end.

Definition image_loads (env : Env) (blob : Blob) (refetch : async World unit)
  : async World unit :=
  if decodes env blob then run_onload else run_onerror refetch.

(** One unit of fuel per call of [_fetchAndCacheTile]. *)
Fixpoint _fetchAndCacheTile (fuel : nat) (env : Env) (coords : Tile.t)
  : async World unit :=
  match fuel with
  | O => fun w => (Pending, w)
  | S fuel' =>
      let url := getTileUrl env coords in
      try_catch
        (response <- fetch env url ;;
         (if negb (snd response) then throw NetworkError else ret tt) ;;
         blob <- match fst response with
                 | Some b => ret b
                 | None => throw BodyFailed
                 end ;;
         try_catch
           (on_cache (TileCache.saveTile (cacheEnv env)
                        (Tile.z coords) (Tile.x coords) (Tile.y coords) blob))
           (fun err => ret tt) ;;
         objectUrl <- createObjectURL blob ;;
         with_tile (fun t => mkImg (Some objectUrl) (onload t) (onerror t)) ;;
         with_tile (fun t => mkImg (src t) (RevokeThenOnLoad objectUrl) (onerror t)) ;;
         image_loads env blob (_fetchAndCacheTile fuel' env coords))
        (fun err => call_leaflet (TileOnError false))
  end.

(** [_fetchAndCacheTile] settles on its own, so the [catch] below is only
    reached by a [getTile] that rejects. *)
Definition _loadTile (fuel : nat) (env : Env) (coords : Tile.t) : async World unit :=
  try_catch
    (cachedBlob <- on_cache (TileCache.getTile (cacheEnv env)
                               (Tile.z coords) (Tile.x coords) (Tile.y coords)) ;;
     match cachedBlob with
     | Some blob =>
         url <- createObjectURL blob ;;
         with_tile (fun t => mkImg (Some url) (onload t) (onerror t)) ;;
         with_tile (fun t => mkImg (src t) (RevokeThenOnLoad url) (onerror t)) ;;
         with_tile (fun t => mkImg (src t) (onload t) (RevokeThenRefetch url)) ;;
         image_loads env blob (_fetchAndCacheTile fuel env coords)
     | None => _fetchAndCacheTile fuel env coords
     end)
    (fun _ => _fetchAndCacheTile fuel env coords).

Definition createTile (fuel : nat) (env : Env) (coords : Tile.t) : async World Img :=
  with_tile (fun _ => mkImg None LeafletOnLoad LeafletOnError) ;;
  _loadTile fuel env coords ;;
  w <- get_state ;;
  ret (tile w).

End CachedTileLayer.

(** ** Vocabulary of the statements on strings *)

(** The character [c] occurs in [s]. *)
Fixpoint occurs (c : Ascii.ascii) (s : string) : Prop :=
  match s with
  | EmptyString => False
  | String a s' => a = c \/ occurs c s'
  end.

(** The characters of a decimal numeral. *)
Definition numeral_char (c : Ascii.ascii) : Prop :=
  In c ["0"; "1"; "2"; "3"; "4"; "5"; "6"; "7"; "8"; "9"; "-"]%char.

(** The store after a lazy [init] that succeeded. *)
Definition opened (s : TileCache.t) : TileCache.t :=
  TileCache.mk true
    (Some (match TileCache.idb s with
           | None => TileCache.onupgradeneeded ∅
           | Some stores => stores
           end)).

(** The tile is in the object store of an open database. *)
Definition stored (c : TileCache.t) (tile : Tile.t) : Prop :=
  exists stores objs,
    holds c stores objs /\
    is_Some (objs !! TileCache.getKey (Tile.z tile) (Tile.x tile) (Tile.y tile)).

(** The cache and the fetch log that the attempt on a tile leaves. *)
Definition attempt_cache (env : TilePreloader.Env) (tile : Tile.t) (c : TileCache.t)
  : TileCache.t :=
  let '(Tile.mk z x y) := tile in
  match TileCache.getTile (TilePreloader.cacheEnv env) z x y c with
  | (Resolved (Some _), c1) => c1
  | (_, c1) =>
      match TilePreloader.network env (TilePreloader.getTileUrl z x y) with
      | TilePreloader.Response true (Some blob) =>
          snd (TileCache.saveTile (TilePreloader.cacheEnv env) z x y blob c1)
      | _ => c1
      end
  end.

Definition attempt_fetches (env : TilePreloader.Env) (tile : Tile.t) (c : TileCache.t)
  (log : list string) : list string :=
  let '(Tile.mk z x y) := tile in
  match TileCache.getTile (TilePreloader.cacheEnv env) z x y c with
  | (Resolved (Some _), _) => log
  | _ => push (TilePreloader.getTileUrl z x y) log
  end.

(** The same for attempts made one after the other, with the number of
    those that fail. *)
Fixpoint attempts_cache (env : TilePreloader.Env) (order : list Tile.t) (c : TileCache.t)
  : TileCache.t :=
  match order with
  | [] => c
  | tile :: rest => attempts_cache env rest (attempt_cache env tile c)
  end.

Fixpoint attempts_fetches (env : TilePreloader.Env) (order : list Tile.t)
  (c : TileCache.t) (log : list string) : list string :=
  match order with
  | [] => log
  | tile :: rest =>
      attempts_fetches env rest (attempt_cache env tile c) (attempt_fetches env tile c log)
  end.

Fixpoint attempts_failed (env : TilePreloader.Env) (order : list Tile.t) (c : TileCache.t)
  : Z :=
  match order with
  | [] => 0
  | tile :: rest =>
      (if attempt_succeeds env tile c then 0 else 1)
      + attempts_failed env rest (attempt_cache env tile c)
  end.

(** The order in which [processBatch] makes its attempts: batch after
    batch, each in its order of completion. *)
Fixpoint attempt_order (fuel : nat) (env : TilePreloader.Env) (concurrency : Z)
  (tiles : list Tile.t) : list Tile.t :=
  match fuel with
  | O => []
  | S fuel' =>
      let '(batch, rest) := TilePreloader.take_batch 0 concurrency tiles [] in
      TilePreloader.completionOrder env batch
      ++ match rest with
         | _ :: _ => attempt_order fuel' env concurrency rest
         | [] => []
         end
  end.

(** The page after [processBatch], in terms of the attempts it made. *)
Definition processed (env : TilePreloader.Env) (order : list Tile.t)
  (w w' : TilePreloader.World) : Prop :=
  let p := TilePreloader.preloader w in
  let p' := TilePreloader.preloader w' in
  TilePreloader.cache w' = attempts_cache env order (TilePreloader.cache w) /\
  TilePreloader.fetches w'
  = attempts_fetches env order (TilePreloader.cache w) (TilePreloader.fetches w) /\
  TilePreloader.tiles p' = TilePreloader.tiles p /\
  TilePreloader.isPreloading p' = TilePreloader.isPreloading p /\
  total (TilePreloader.progress p') = total (TilePreloader.progress p) /\
  failed (TilePreloader.progress p')
  = failed (TilePreloader.progress p) + attempts_failed env order (TilePreloader.cache w) /\
  loaded (TilePreloader.progress p') + failed (TilePreloader.progress p')
  = loaded (TilePreloader.progress p) + failed (TilePreloader.progress p)
    + Z.of_nat (length order).

(** The page of the tile layer once the fetched blob is in [tile.src], and
    the page on which [createTile] starts to load. *)
Definition showing (env : CachedTileLayer.Env) (coords : Tile.t) (blob : Blob)
  (w : CachedTileLayer.World) : CachedTileLayer.World :=
  CachedTileLayer.mkWorld
    (snd (TileCache.saveTile (CachedTileLayer.cacheEnv env)
            (Tile.z coords) (Tile.x coords) (Tile.y coords) blob
            (CachedTileLayer.cache w)))
    (CachedTileLayer.fetches w ++ [CachedTileLayer.getTileUrl env coords])
    (CachedTileLayer.mkImg (Some (CachedTileLayer.nextUrl w))
       (CachedTileLayer.RevokeThenOnLoad (CachedTileLayer.nextUrl w))
       (CachedTileLayer.onerror (CachedTileLayer.tile w)))
    (CachedTileLayer.signals w)
    (<[CachedTileLayer.nextUrl w := blob]> (CachedTileLayer.urls w))
    (S (CachedTileLayer.nextUrl w)).

Definition new_tile (c : TileCache.t) (w : CachedTileLayer.World)
  : CachedTileLayer.World :=
  CachedTileLayer.mkWorld c (CachedTileLayer.fetches w)
    (CachedTileLayer.mkImg None CachedTileLayer.LeafletOnLoad CachedTileLayer.LeafletOnError)
    (CachedTileLayer.signals w) (CachedTileLayer.urls w) (CachedTileLayer.nextUrl w).

(** The device when the app is started again: AsyncStorage keeps its
    items, the hook is in the state of its first render. *)
Definition restart (w : useTilePreload.World) : useTilePreload.World :=
  useTilePreload.mkWorld useTilePreload.initial (useTilePreload.items w) [].

(** The progress of a run over an empty tile list. *)
Definition empty_progress : PreloadProgress := mkProgress 0 0 0 NaN true.

(** ** More cases, for the instances of the statements *)

Module Cases.

(** A device on which the database cannot be opened, and one on which a
    [put] fails. *)
Definition no_storage : TileCache.Env := TileCache.mkEnv false (fun _ => false).

Definition read_only : TileCache.Env :=
  TileCache.mkEnv true
    (fun r => match r with TileCache.ReqPut _ => true | _ => false end).

(** An open database with its empty object store, and with one tile. *)
Definition empty_store : TileCache.t :=
  TileCache.mk true (Some {[ TileCache.storeName := ∅ ]}).

Definition store_with (blob : Blob) : TileCache.t :=
  TileCache.mk true
    (Some {[ TileCache.storeName := {[ TileCache.getKey 1 0 0 := blob ]} ]}).

(** A network on which every fetch gives an image. *)
Definition png : Blob := [Byte.x89; Byte.x50; Byte.x4e; Byte.x47].

Definition online : TilePreloader.Env :=
  TilePreloader.mkEnv Scenario.storage
    (fun _ => TilePreloader.Response true (Some png)) true (fun batch => batch).

Definition online_without_storage : TilePreloader.Env :=
  TilePreloader.mkEnv no_storage
    (fun _ => TilePreloader.Response true (Some png)) true (fun batch => batch).

(** The page of the preloader with its two tiles in the store. *)
Definition pair : list Tile.t := [Tile.mk 1 0 0; Tile.mk 1 0 1].

Definition cached_page : TilePreloader.World :=
  TilePreloader.mkWorld (TilePreloader.create pair)
    (TileCache.mk true
       (Some {[ TileCache.storeName :=
                  {[ TileCache.getKey 1 0 0 := png; TileCache.getKey 1 0 1 := png ]} ]}))
    [] [] [].

Definition empty_page : TilePreloader.World :=
  TilePreloader.mkWorld (TilePreloader.create []) Scenario.unopened [] [] [].

(** The tile layer: a blob decodes when it is not empty, and the network
    answers every fetch with [answer]. *)
Definition layer (answer : TilePreloader.FetchResult) : CachedTileLayer.Env :=
  CachedTileLayer.mkEnv Scenario.storage (fun _ => answer)
    (fun blob => match blob with [] => false | _ :: _ => true end)
    (fun coords => TilePreloader.getTileUrl (Tile.z coords) (Tile.x coords) (Tile.y coords)).

Definition map_on (c : TileCache.t) : CachedTileLayer.World :=
  CachedTileLayer.mkWorld c []
    (CachedTileLayer.mkImg None CachedTileLayer.LeafletOnLoad CachedTileLayer.LeafletOnError)
    [] ∅ 0.

Definition origin : Tile.t := Tile.mk 1 0 0.

(** An AsyncStorage that rejects every call. *)
Definition broken_host : useTilePreload.Env := useTilePreload.mkEnv (fun _ => true).

End Cases.

(* ================================================================== *)
(** * Properties *)

(** ** Tile arithmetic *)

Section TileSet.

Lemma zrange_nil (lo hi : Z) : hi < lo -> zrange lo hi = [].
Proof.
  intros Hlt. unfold zrange.
  replace (Z.to_nat (hi + 1 - lo)) with 0%nat by lia. reflexivity.
Qed.

Lemma zrange_cons (lo hi : Z) : lo <= hi -> zrange lo hi = lo :: zrange (lo + 1) hi.
Proof.
  intros Hle. unfold zrange.
  replace (Z.to_nat (hi + 1 - lo)) with (S (Z.to_nat (hi + 1 - (lo + 1)))) by lia.
  cbn [seq map]. rewrite Z.add_0_r. f_equal.
  rewrite <- seq_shift, map_map.
  apply map_ext. intros k. lia.
Qed.

Lemma for_upto_zrange {St : Type} (body : Z -> St -> St) (hi i : Z) (s : St) :
  for_upto i hi body s = fold_left (fun acc k => body k acc) (zrange i hi) s.
Proof.
  funelim (for_upto i hi body s).
  - rewrite H, (zrange_cons i hi) by assumption. reflexivity.
  - rewrite zrange_nil by lia. reflexivity.
Qed.

Lemma elem_of_zrange (lo hi k : Z) : In k (zrange lo hi) <-> lo <= k <= hi.
Proof.
  unfold zrange. rewrite in_map_iff. split.
  - intros (n & <- & Hn). apply in_seq in Hn. lia.
  - intros Hk. exists (Z.to_nat (k - lo)). split; [lia|]. apply in_seq. lia.
Qed.


Lemma latLngToTile_x_indep (lat lat' lng : R) (zoom : Z) :
  XY.x (latLngToTile lat lng zoom) = XY.x (latLngToTile lat' lng zoom).
Proof. reflexivity. Qed.




Lemma fold_push_flat_map {A : Type} (f : A -> list Tile.t) (l : list A) :
  forall (body : A -> list Tile.t -> list Tile.t) (acc : list Tile.t),
    (forall a acc', body a acc' = acc' ++ f a) ->
    fold_left (fun acc a => body a acc) l acc = acc ++ flat_map f l.
Proof.
  induction l as [|a l IH]; intros body acc Hbody; simpl.
  - symmetry. apply app_nil_r.
  - rewrite (IH body _ Hbody), Hbody. symmetry. apply app_assoc.
Qed.

Lemma column_loop (z x y0 y1 : Z) (acc : list Tile.t) :
  for_upto y0 y1 (fun y tiles => push (Tile.mk z x y) tiles) acc
  = acc ++ map (fun y => Tile.mk z x y) (zrange y0 y1).
Proof.
  rewrite for_upto_zrange.
  rewrite (fold_push_flat_map (fun y => [Tile.mk z x y])) by reflexivity.
  apply (f_equal (app acc)).
  induction (zrange y0 y1) as [|k l IH]; simpl; congruence.
Qed.

Lemma grid_loop (z x0 x1 y0 y1 : Z) (acc : list Tile.t) :
  for_upto x0 x1 (fun x tiles =>
    for_upto y0 y1 (fun y tiles => push (Tile.mk z x y) tiles) tiles) acc
  = acc ++ tile_grid z x0 x1 y0 y1.
Proof.
  rewrite for_upto_zrange. unfold tile_grid.
  apply fold_push_flat_map. intros x acc'. apply column_loop.
Qed.

Lemma elem_of_tile_grid (t : Tile.t) (z x0 x1 y0 y1 : Z) :
  In t (tile_grid z x0 x1 y0 y1) <->
  Tile.z t = z /\ x0 <= Tile.x t <= x1 /\ y0 <= Tile.y t <= y1.
Proof.
  unfold tile_grid. rewrite in_flat_map. split.
  - intros (x & Hx & Ht). apply in_map_iff in Ht as (y & <- & Hy).
    apply elem_of_zrange in Hx, Hy. simpl. auto.
  - intros (Hz & Hx & Hy). exists (Tile.x t). split; [now apply elem_of_zrange|].
    apply in_map_iff. exists (Tile.y t). split; [|now apply elem_of_zrange].
    destruct t; simpl in *; congruence.
Qed.

Lemma getTilesForBounds_flat_map (b : Bounds) (zoomLevels : list Z) :
  getTilesForBounds b zoomLevels
  = flat_map (fun z =>
      tile_grid z (XY.x (latLngToTile (north b) (west b) z))
                  (XY.x (latLngToTile (south b) (east b) z))
                  (XY.y (latLngToTile (north b) (west b) z))
                  (XY.y (latLngToTile (south b) (east b) z)))
      zoomLevels.
Proof.
  unfold getTilesForBounds, for_of.
  rewrite (fold_push_flat_map (fun z =>
      tile_grid z (XY.x (latLngToTile (north b) (west b) z))
                  (XY.x (latLngToTile (south b) (east b) z))
                  (XY.y (latLngToTile (north b) (west b) z))
                  (XY.y (latLngToTile (south b) (east b) z)))).
  - reflexivity.
  - intros z acc. apply grid_loop.
Qed.


End TileSet.

(** ** The box invariant and the Mercator projection *)

Section Mercator.

Local Open Scope R_scope.

Lemma sin_inside (a : R) : - (PI / 2) < a -> a < PI / 2 -> -1 < sin a < 1.
Proof.
  intros Hlo Hhi. pose proof PI_RGT_0 as Hpi. split.
  - replace (-1) with (sin (- (PI / 2))) by (rewrite sin_neg, sin_PI2; reflexivity).
    apply sin_increasing_1; lra.
  - rewrite <- sin_PI2. apply sin_increasing_1; lra.
Qed.

Lemma mercator_arg (a : R) :
  - (PI / 2) < a -> a < PI / 2 ->
  tan a + 1 / cos a = (1 + sin a) / cos a /\ 0 < (1 + sin a) / cos a.
Proof.
  intros Hlo Hhi. pose proof (cos_gt_0 a Hlo Hhi) as Hc.
  destruct (sin_inside a Hlo Hhi) as [Hs _]. split.
  - unfold tan. field. lra.
  - apply Rdiv_lt_0_compat; lra.
Qed.

Lemma mercator_arg_increasing (a b : R) :
  - (PI / 2) < a -> a < b -> b < PI / 2 ->
  (1 + sin a) / cos a < (1 + sin b) / cos b.
Proof.
  intros Hlo Hab Hhi.
  assert (Hca : 0 < cos a) by (apply cos_gt_0; lra).
  assert (Hcb : 0 < cos b) by (apply cos_gt_0; lra).
  destruct (sin_inside a) as [Hsa _]; [lra | lra |].
  destruct (sin_inside b) as [_ Hsb]; [lra | lra |].
  assert (Hs : sin a < sin b) by (apply sin_increasing_1; lra).
  pose proof (sin2_cos2 a) as Ha2. pose proof (sin2_cos2 b) as Hb2.
  unfold Rsqr in Ha2, Hb2.
  assert (Hcross : (1 + sin a) * cos b < (1 + sin b) * cos a).
  { apply Rsqr_incrst_0.
    - unfold Rsqr. apply Rlt_0_minus.
      replace ((1 + sin b) * cos a * ((1 + sin b) * cos a)
               - (1 + sin a) * cos b * ((1 + sin a) * cos b))
        with ((1 + sin b) * (1 + sin b) * (cos a * cos a)
              - (1 + sin a) * (1 + sin a) * (cos b * cos b)) by ring.
      replace (cos a * cos a) with (1 - sin a * sin a) by lra.
      replace (cos b * cos b) with (1 - sin b * sin b) by lra.
      replace ((1 + sin b) * (1 + sin b) * (1 - sin a * sin a)
               - (1 + sin a) * (1 + sin a) * (1 - sin b * sin b))
        with (2 * ((1 + sin a) * (1 + sin b) * (sin b - sin a))) by ring.
      apply Rmult_lt_0_compat; [lra|].
      apply Rmult_lt_0_compat; [apply Rmult_lt_0_compat|]; lra.
    - apply Rmult_le_pos; lra.
    - apply Rmult_le_pos; lra. }
  apply (Rmult_lt_reg_r (cos a * cos b)); [apply Rmult_lt_0_compat; assumption|].
  replace ((1 + sin a) / cos a * (cos a * cos b)) with ((1 + sin a) * cos b)
    by (field; lra).
  replace ((1 + sin b) / cos b * (cos a * cos b)) with ((1 + sin b) * cos a)
    by (field; lra).
  exact Hcross.
Qed.

Lemma latitude_angle (lat : R) :
  -90 < lat -> lat < 90 -> - (PI / 2) < lat * PI / 180 < PI / 2.
Proof. intros Hlo Hhi. pose proof PI_RGT_0 as Hpi. split; nra. Qed.

Lemma Math_pow_2_pos (zoom : Z) : 0 < Math_pow 2 zoom.
Proof. unfold Math_pow. apply powerRZ_lt. lra. Qed.

Lemma tile_x_monotone (lat lat' lng lng' : R) (zoom : Z) :
  lng <= lng' ->
  (XY.x (latLngToTile lat lng zoom) <= XY.x (latLngToTile lat' lng' zoom))%Z.
Proof.
  intros Hle. unfold latLngToTile, Math_floor. cbn [XY.x].
  apply Zfloor_le. pose proof (Math_pow_2_pos zoom) as Hp.
  apply Rmult_le_compat_r; lra.
Qed.

Lemma tile_y_antitone (lat lat' lng lng' : R) (zoom : Z) :
  -90 < lat -> lat < lat' -> lat' < 90 ->
  (XY.y (latLngToTile lat' lng' zoom) <= XY.y (latLngToTile lat lng zoom))%Z.
Proof.
  intros Hlo Hlt Hhi.
  unfold latLngToTile, Math_floor, Math_log, Math_tan, Math_cos, Math_PI. cbn [XY.y].
  apply Zfloor_le. pose proof (Math_pow_2_pos zoom) as Hp. pose proof PI_RGT_0 as Hpi.
  destruct (latitude_angle lat) as [Ha1 Ha2]; [lra | lra |].
  destruct (latitude_angle lat') as [Hb1 Hb2]; [lra | lra |].
  destruct (mercator_arg (lat * PI / 180) Ha1 Ha2) as [-> Hpos].
  destruct (mercator_arg (lat' * PI / 180) Hb1 Hb2) as [-> _].
  assert (Hln : ln ((1 + sin (lat * PI / 180)) / cos (lat * PI / 180))
                < ln ((1 + sin (lat' * PI / 180)) / cos (lat' * PI / 180))).
  { apply ln_increasing; [exact Hpos|].
    apply mercator_arg_increasing; [exact Ha1 | nra | exact Hb2]. }
  assert (Hdiv : ln ((1 + sin (lat * PI / 180)) / cos (lat * PI / 180)) / PI
                 <= ln ((1 + sin (lat' * PI / 180)) / cos (lat' * PI / 180)) / PI).
  { apply Rmult_le_compat_r; [left; apply Rinv_0_lt_compat, Hpi | lra]. }
  apply Rmult_le_compat_r; lra.
Qed.

(** A box with north > south inside (-90, 90) and east > west has a tile at
    every requested zoom level. *)
Lemma getTilesForBounds_nonempty (b : Bounds) (zoomLevels : list Z) :
  zoomLevels <> [] ->
  -90 < south b -> south b < north b -> north b < 90 -> west b < east b ->
  getTilesForBounds b zoomLevels <> [].
Proof.
  intros Hz Hlo Hns Hhi Hwe. rewrite getTilesForBounds_flat_map.
  destruct zoomLevels as [|z rest]; [contradiction|]. cbn [flat_map].
  assert (Hin : In (Tile.mk z (XY.x (latLngToTile (north b) (west b) z))
                              (XY.y (latLngToTile (north b) (west b) z)))
                   (tile_grid z (XY.x (latLngToTile (north b) (west b) z))
                      (XY.x (latLngToTile (south b) (east b) z))
                      (XY.y (latLngToTile (north b) (west b) z))
                      (XY.y (latLngToTile (south b) (east b) z)))).
  { apply elem_of_tile_grid. cbn [Tile.z Tile.x Tile.y].
    pose proof (tile_x_monotone (north b) (south b) (west b) (east b) z) as Hx.
    pose proof (tile_y_antitone (south b) (north b) (east b) (west b) z Hlo Hns Hhi) as Hy.
    split; [reflexivity|]. split; (split; [apply Z.le_refl|]); [apply Hx; lra | exact Hy]. }
  intros Hnil. destruct (tile_grid _ _ _ _ _) as [|t l]; [exact Hin | discriminate].
Qed.

(** The configured tile set, and so the [total] of every run, is not empty. *)
Lemma getHuelvaTiles_nonempty : getHuelvaTiles <> [].
Proof.
  unfold getHuelvaTiles. apply getTilesForBounds_nonempty;
    unfold TILE_CACHE_CONFIG.huelvaBounds, TILE_CACHE_CONFIG.zoomLevels; cbn;
    [discriminate | lra | lra | lra | lra].
Qed.

End Mercator.

(** ** The tile store *)

Section TileStore.

Variable env : TileCache.Env.

Lemma init_opens (s s1 : TileCache.t) :
  TileCache.init env s = (Resolved tt, s1) -> TileCache.db s1 = true.
Proof.
  unfold TileCache.init. destruct (TileCache.open_ok env); intros H; inversion H.
  reflexivity.
Qed.

Lemma ensure_db_lazy (s s1 : TileCache.t) :
  TileCache.db s = false ->
  TileCache.init env s = (Resolved tt, s1) ->
  TileCache.ensure_db env s = (Resolved tt, s1) /\
  TileCache.ensure_db env s1 = (Resolved tt, s1).
Proof.
  intros Hdb Hinit. pose proof (init_opens _ _ Hinit) as Hopen.
  unfold TileCache.ensure_db, bind, get_state. rewrite Hdb, Hopen. simpl.
  split; [exact Hinit | reflexivity].
Qed.

Lemma lazy_prefix {A : Type} (k : async TileCache.t A) (s s1 : TileCache.t) :
  TileCache.db s = false ->
  TileCache.init env s = (Resolved tt, s1) ->
  bind (TileCache.ensure_db env) (fun _ => k) s
  = bind (TileCache.ensure_db env) (fun _ => k) s1.
Proof.
  intros Hdb Hinit. destruct (ensure_db_lazy s s1 Hdb Hinit) as [H0 H1].
  unfold bind. rewrite H0, H1. reflexivity.
Qed.

(** C10. Every public operation opens the database itself when it is not
    open yet: called on an unopened store it gives the result and the state
    that it gives when called after a successful [init]. *)
Theorem operations_init_lazily (s s1 : TileCache.t) (z x y : Z) (blob : Blob) :
  TileCache.db s = false ->
  TileCache.init env s = (Resolved tt, s1) ->
  TileCache.getTile env z x y s = TileCache.getTile env z x y s1 /\
  TileCache.saveTile env z x y blob s = TileCache.saveTile env z x y blob s1 /\
  TileCache.hasTile env z x y s = TileCache.hasTile env z x y s1 /\
  TileCache.getStats env s = TileCache.getStats env s1 /\
  TileCache.clear env s = TileCache.clear env s1.
Proof.
  intros Hdb Hinit.
  assert (Hget : TileCache.getTile env z x y s = TileCache.getTile env z x y s1)
    by (apply lazy_prefix; assumption).
  repeat split.
  - exact Hget.
  - apply lazy_prefix; assumption.
  - unfold TileCache.hasTile, bind. rewrite Hget. reflexivity.
  - apply lazy_prefix; assumption.
  - apply lazy_prefix; assumption.
Qed.

Lemma getTile_open (s : TileCache.t) stores objs (z x y : Z) :
  holds s stores objs ->
  TileCache.request_fails env (TileCache.ReqGet (TileCache.getKey z x y)) = false ->
  TileCache.getTile env z x y s = (Resolved (objs !! TileCache.getKey z x y), s).
Proof.
  intros [-> Hobjs] Hreq.
  unfold TileCache.getTile, TileCache.ensure_db, TileCache.objectStore,
    TileCache.request, bind, get_state, ret. simpl.
  rewrite Hobjs, Hreq. reflexivity.
Qed.

Lemma saveTile_open (s : TileCache.t) stores objs (z x y : Z) (blob : Blob) :
  holds s stores objs ->
  TileCache.saveTile env z x y blob s
  = if TileCache.request_fails env (TileCache.ReqPut (TileCache.getKey z x y))
    then (Rejected RequestFailed, s)
    else (Resolved tt,
          TileCache.mk true
            (Some (<[TileCache.storeName := <[TileCache.getKey z x y := blob]> objs]> stores))).
Proof.
  intros [-> Hobjs].
  unfold TileCache.saveTile, TileCache.ensure_db, TileCache.objectStore,
    TileCache.request, TileCache.write_store, bind, get_state, ret, throw, modify.
  simpl. rewrite Hobjs.
  destruct (TileCache.request_fails env _); reflexivity.
Qed.

Lemma ensure_db_resolved (s s1 : TileCache.t) :
  TileCache.ensure_db env s = (Resolved tt, s1) ->
  TileCache.db s1 = true /\
  (TileCache.db s = true -> s1 = s).
Proof.
  unfold TileCache.ensure_db, bind, get_state.
  destruct (TileCache.db s) eqn:Hdb; simpl.
  - unfold ret. intros H. inversion H. subst. auto.
  - intros H. split; [eapply init_opens; eassumption | discriminate].
Qed.

Lemma saveTile_resolved (s s' : TileCache.t) (z x y : Z) (blob : Blob) :
  TileCache.saveTile env z x y blob s = (Resolved tt, s') ->
  exists stores objs,
    holds s' (<[TileCache.storeName := <[TileCache.getKey z x y := blob]> objs]> stores)
             (<[TileCache.getKey z x y := blob]> objs).
Proof.
  unfold TileCache.saveTile. unfold bind at 1.
  destruct (TileCache.ensure_db env s) as [[[]|e|] s1] eqn:Hens; try discriminate.
  apply ensure_db_resolved in Hens as [Hopen _].
  unfold TileCache.objectStore, bind at 1.
  destruct s1 as [d i]. simpl in Hopen. subst d. simpl.
  destruct i as [stores|]; [|discriminate].
  destruct (stores !! TileCache.storeName) as [objs|] eqn:Hobjs; [|discriminate].
  unfold bind, TileCache.request.
  destruct (TileCache.request_fails env _); [discriminate|].
  unfold ret, TileCache.write_store, modify. simpl. intros H. inversion H.
  exists stores, objs. split; [reflexivity | apply lookup_insert_eq].
Qed.

(** C7. After a successful [saveTile(coord, blob)], and also after a later
    write to another key, [hasTile(coord)] is true and [getTile(coord)] is
    the saved blob, as long as the read request itself does not fail.  For
    every coordinate [hasTile] is [getTile] followed by the test against
    the absent value. *)
Theorem saved_tile_is_found (s s' : TileCache.t) (z x y : Z) (blob : Blob) :
  TileCache.saveTile env z x y blob s = (Resolved tt, s') ->
  TileCache.request_fails env (TileCache.ReqGet (TileCache.getKey z x y)) = false ->
  TileCache.getTile env z x y s' = (Resolved (Some blob), s') /\
  TileCache.hasTile env z x y s' = (Resolved true, s') /\
  (forall z' x' y' blob' r s'',
      TileCache.getKey z' x' y' <> TileCache.getKey z x y ->
      TileCache.saveTile env z' x' y' blob' s' = (r, s'') ->
      TileCache.getTile env z x y s'' = (Resolved (Some blob), s'') /\
      TileCache.hasTile env z x y s'' = (Resolved true, s'')) /\
  (forall z' x' y' s0,
      TileCache.hasTile env z' x' y' s0
      = let '(r, s1) := TileCache.getTile env z' x' y' s0 in
        (match r with
         | Resolved tile => Resolved (bool_decide (tile <> None))
         | Rejected e => Rejected e
         | Pending => Pending
         end, s1)).
Proof.
  intros Hsave Hread.
  destruct (saveTile_resolved _ _ _ _ _ _ Hsave) as (stores & objs & Hs').
  assert (Hget : TileCache.getTile env z x y s' = (Resolved (Some blob), s')).
  { rewrite (getTile_open _ _ _ z x y Hs' Hread), lookup_insert_eq. reflexivity. }
  split; [exact Hget|]. split.
  { unfold TileCache.hasTile, bind. rewrite Hget. reflexivity. }
  split.
  - intros z' x' y' blob' r s'' Hne Hsave'.
    rewrite (saveTile_open _ _ _ z' x' y' blob' Hs') in Hsave'.
    assert (Hget' : TileCache.getTile env z x y s'' = (Resolved (Some blob), s'')).
    { destruct (TileCache.request_fails env (TileCache.ReqPut _)).
      - inversion Hsave'; subst. exact Hget.
      - inversion Hsave'; subst.
        erewrite getTile_open; [| split; [reflexivity | apply lookup_insert_eq] | exact Hread].
        rewrite lookup_insert_ne by exact Hne.
        rewrite lookup_insert_eq. reflexivity. }
    split; [exact Hget'|].
    unfold TileCache.hasTile, bind. rewrite Hget'. reflexivity.
  - intros z' x' y' s0. unfold TileCache.hasTile, bind.
    destruct (TileCache.getTile env z' x' y' s0) as [[[b|]|e|] s1]; reflexivity.
Qed.

End TileStore.

(** ** Percentages *)

Section Percentage.

Lemma half_up_ratio (q : Q) (k t : Z) :
  0 < t ->
  (q == inject_Z 100 * inject_Z k / inject_Z t)%Q ->
  Qfloor (q + (1 # 2))%Q = (200 * k + t) / (2 * t).
Proof.
  intros Ht Hq. rewrite Zdiv_Qdiv. apply Qfloor_comp.
  rewrite Hq, !inject_Z_plus, !inject_Z_mult.
  assert (Hne : ~ (inject_Z t == 0)%Q).
  { intros H. unfold Qeq in H. simpl in H. lia. }
  field. exact Hne.
Qed.

Lemma round_percent_div (k t : Z) :
  0 < t -> round_percent k t = (200 * k + t) / (2 * t).
Proof. intros Ht. unfold round_percent. apply half_up_ratio; [exact Ht | reflexivity]. Qed.


Lemma percentage_as_specified (k t : Z) :
  0 < t ->
  Math_round (js_mul (js_div k t) 100) = Fin (round_percent k t).
Proof.
  intros Ht. unfold js_div. destruct (Z.eqb_spec t 0) as [->|_]; [lia|].
  cbn [js_mul Math_round]. f_equal.
  rewrite round_percent_div by exact Ht.
  apply half_up_ratio; [exact Ht|]. 
  assert (Hne : ~ (inject_Z t == 0)%Q).
  { intros H. unfold Qeq in H. simpl in H. lia. }
  field. exact Hne.
Qed.

End Percentage.

(** ** The bulk preloader *)

Section Preloader.

Import TilePreloader.

Variable env : Env.

Lemma updateProgress_run (w : World) :
  updateProgress env w = (Resolved tt, after_update env w).
Proof.
  unfold updateProgress, after_update, with_progress, with_preloader, dispatchEvent,
    postMessage, bind, modify, get_state, ret, recomputed, push.
  destruct (hasBridge env); reflexivity.
Qed.

Lemma getTile_settles (cenv : TileCache.Env) (z x y : Z) (c : TileCache.t) :
  fst (TileCache.getTile cenv z x y c) <> Pending.
Proof.
  unfold TileCache.getTile, TileCache.ensure_db, TileCache.init, TileCache.objectStore,
    TileCache.request, bind, get_state, ret, throw.
  destruct c as [[|] [stores|]]; cbn;
    repeat (match goal with
            | |- context [if ?b then _ else _] => destruct b; cbn
            | |- context [match ?m !! ?k with _ => _ end] => destruct (m !! k); cbn
            end); discriminate.
Qed.

Lemma saveTile_settles (cenv : TileCache.Env) (z x y : Z) (blob : Blob) (c : TileCache.t) :
  fst (TileCache.saveTile cenv z x y blob c) <> Pending.
Proof.
  unfold TileCache.saveTile, TileCache.ensure_db, TileCache.init, TileCache.objectStore,
    TileCache.request, TileCache.write_store, bind, get_state, ret, throw, modify.
  destruct c as [[|] [stores|]]; cbn;
    repeat (match goal with
            | |- context [if ?b then _ else _] => destruct b; cbn
            | |- context [match ?m !! ?k with _ => _ end] => destruct (m !! k); cbn
            end); discriminate.
Qed.

Ltac settle_update :=
  rewrite updateProgress_run; cbn -[TileCache.saveTile updateProgress getTileUrl after_update].

Lemma preloadTile_run (tile : Tile.t) (w : World) :
  exists c urls,
    preloadTile env tile w
    = (Resolved (attempt_succeeds env tile (cache w)),
       after_attempt env (attempt_succeeds env tile (cache w)) c urls w).
Proof.
  destruct tile as [z x y].
  unfold attempt_succeeds, preloadTile, bind, try_catch, on_cache, zoom_in, fetch,
    incr_loaded, incr_failed, with_progress, with_preloader, modify, ret, throw.
  pose proof (getTile_settles (cacheEnv env) z x y (cache w)) as Hget.
  destruct (TileCache.getTile (cacheEnv env) z x y (cache w)) as [[[blob|]|e|] c1];
    cbn -[TileCache.saveTile updateProgress getTileUrl];
    [ settle_update; exists c1, (fetches w); reflexivity
    | | | contradiction ].
  all: destruct (network env (getTileUrl z x y)) as [|[|] [body|]];
    cbn -[TileCache.saveTile updateProgress getTileUrl];
    try (settle_update; exists c1, (push (getTileUrl z x y) (fetches w));
         reflexivity).
  all: pose proof (saveTile_settles (cacheEnv env) z x y body c1) as Hsave;
    destruct (TileCache.saveTile (cacheEnv env) z x y body c1) as [[[]|e'|] c2];
    cbn -[updateProgress getTileUrl];
    [ settle_update; exists c2, (push (getTileUrl z x y) (fetches w)); reflexivity
    | settle_update; exists c2, (push (getTileUrl z x y) (fetches w)); reflexivity
    | contradiction ].
Qed.

Lemma updates_app (pr : PreloadProgress) (r1 r2 : list bool) :
  updates pr (r1 ++ r2) = updates pr r1 ++ updates (progress_after pr r1) r2.
Proof.
  revert pr. induction r1 as [|ok r1 IH]; intros pr; simpl; [reflexivity|].
  now rewrite IH.
Qed.

Lemma progress_after_app (pr : PreloadProgress) (r1 r2 : list bool) :
  progress_after pr (r1 ++ r2) = progress_after (progress_after pr r1) r2.
Proof.
  revert pr. induction r1 as [|ok r1 IH]; intros pr; simpl; [reflexivity|].
  now rewrite IH.
Qed.

Lemma attempts_from_nil (w : World) : attempts_from env w [] w.
Proof.
  unfold attempts_from. simpl. repeat split; try (symmetry; apply app_nil_r).
  destruct (hasBridge env); symmetry; apply app_nil_r.
Qed.

Lemma attempts_from_app (w w1 w2 : World) (r1 r2 : list bool) :
  attempts_from env w r1 w1 -> attempts_from env w1 r2 w2 ->
  attempts_from env w (r1 ++ r2) w2.
Proof.
  unfold attempts_from.
  intros (Ht1 & Hp1 & Hpr1 & He1 & Hm1) (Ht2 & Hp2 & Hpr2 & He2 & Hm2).
  split; [congruence|]. split; [congruence|]. split.
  { rewrite Hpr2, Hpr1. symmetry. apply progress_after_app. }
  split.
  { rewrite He2, He1, Hpr1, updates_app. symmetry. apply app_assoc. }
  rewrite Hm2, Hm1, Hpr1.
  destruct (hasBridge env); [|now rewrite !app_nil_r].
  rewrite updates_app. symmetry. apply app_assoc.
Qed.

Lemma attempts_from_attempt (w : World) (ok : bool) (c : TileCache.t) (urls : list string) :
  attempts_from env w [ok] (after_attempt env ok c urls w).
Proof.
  unfold attempts_from, after_attempt, after_update. simpl.
  repeat split. destruct (hasBridge env); [reflexivity | now rewrite app_nil_r].
Qed.

Lemma Promise_all_run (l : list Tile.t) :
  forall w, exists results w',
    Promise_all (map (preloadTile env) l) w = (Resolved results, w') /\
    length results = length l /\
    attempts_from env w results w'.
Proof.
  induction l as [|tile l IH]; intros w.
  - exists [], w. simpl. auto using attempts_from_nil.
  - destruct (preloadTile_run tile w) as (c & urls & Hrun).
    destruct (IH (after_attempt env (attempt_succeeds env tile (cache w)) c urls w))
      as (results & w' & Hall & Hlen & Hfrom).
    exists (attempt_succeeds env tile (cache w) :: results), w'.
    cbn [map Promise_all]. rewrite Hrun, Hall. split; [reflexivity|]. split.
    + simpl. now rewrite Hlen.
    + change (attempts_from env w ([attempt_succeeds env tile (cache w)] ++ results) w').
      eapply attempts_from_app; [apply attempts_from_attempt | exact Hfrom].
Qed.

Lemma take_batch_split (concurrency : Z) (tiles : list Tile.t) :
  forall i batch,
    fst (take_batch i concurrency tiles batch) ++ snd (take_batch i concurrency tiles batch)
    = batch ++ tiles.
Proof.
  induction tiles as [|tile rest IH]; intros i batch; simpl.
  - reflexivity.
  - destruct (i <? concurrency); simpl; [|reflexivity].
    rewrite IH. unfold push. now rewrite <- app_assoc.
Qed.

Lemma take_batch_progress (concurrency : Z) (tile : Tile.t) (rest : list Tile.t)
  (i : Z) (batch : list Tile.t) :
  i < concurrency ->
  (length (snd (take_batch i concurrency (tile :: rest) batch)) <= length rest)%nat.
Proof.
  intros Hi. simpl. destruct (Z.ltb_spec i concurrency); [|lia].
  pose proof (take_batch_split concurrency rest (i + 1) (push tile batch)) as Hsplit.
  apply (f_equal (@length _)) in Hsplit. rewrite !length_app in Hsplit.
  assert (Hb : (length (push tile batch) <=
                length (fst (take_batch (i + 1) concurrency rest (push tile batch))))%nat).
  { clear. generalize (i + 1) (push tile batch). induction rest as [|t r IH]; intros j b.
    - simpl. lia.
    - simpl. destruct (j <? concurrency); simpl; [|lia].
      etransitivity; [|apply IH]. unfold push. rewrite length_app. lia. }
  lia.
Qed.

Lemma processBatch_run (concurrency : Z) (fuel : nat) :
  forall tiles w, exists r results w',
    processBatch fuel env concurrency tiles w = (r, w') /\
    attempts_from env w results w' /\
    (r = Resolved tt \/ r = Pending) /\
    (1 <= concurrency -> (length tiles < fuel)%nat -> r = Resolved tt) /\
    ((forall batch, Permutation (completionOrder env batch) batch) ->
     (length results <= length tiles)%nat /\
     (r = Resolved tt -> length results = length tiles)).
Proof.
  induction fuel as [|fuel IH]; intros tiles w.
  - exists Pending, [], w. simpl.
    split; [reflexivity|]. split; [apply attempts_from_nil|].
    split; [now right|]. split; [lia|].
    intros _. split; [lia | discriminate].
  - cbn [processBatch].
    pose proof (take_batch_split concurrency tiles 0 []) as Hsplit.
    assert (Hshrink : 1 <= concurrency -> forall t r, tiles = t :: r ->
              (length (snd (take_batch 0 concurrency tiles [])) <= length r)%nat).
    { intros Hc t r ->. apply take_batch_progress. lia. }
    destruct (take_batch 0 concurrency tiles []) as [batch rest]. simpl in Hsplit, Hshrink.
    destruct (Promise_all_run (completionOrder env batch) w)
      as (res1 & w1 & Hall & Hlen1 & Hfrom1).
    assert (Hlen : length tiles = (length batch + length rest)%nat)
      by (rewrite <- Hsplit; apply length_app).
    unfold bind. rewrite Hall.
    destruct rest as [|t rest'].
    + exists (Resolved tt), res1, w1. unfold ret. simpl in Hlen.
      split; [reflexivity|]. split; [exact Hfrom1|].
      split; [now left|]. split; [reflexivity|].
      intros Hperm. rewrite (Permutation_length (Hperm batch)) in Hlen1. lia.
    + destruct (IH (t :: rest') w1)
        as (r & res2 & w2 & Hrun & Hfrom2 & Hend & Hfuel & Hcount).
      exists r, (res1 ++ res2), w2. rewrite Hrun. rewrite length_app.
      split; [reflexivity|]. split; [|split; [|split]].
      * eapply attempts_from_app; eassumption.
      * exact Hend.
      * intros Hc Hlt. apply Hfuel; [exact Hc|].
        destruct tiles as [|t0 r0]; [simpl in Hlen; lia|].
        specialize (Hshrink Hc t0 r0 eq_refl). simpl in Hlt. lia.
      * intros Hperm. rewrite (Permutation_length (Hperm batch)) in Hlen1.
        destruct (Hcount Hperm) as [Hle Heq]. split; [lia|].
        intros Hr. specialize (Heq Hr). lia.
Qed.

(** The new events of a run whose attempts ended with [results]. *)
Lemma preloadAll_run (fuel : nat) (concurrency : Z) (w : World) :
  isPreloading (preloader w) = false ->
  let n := length (tiles (preloader w)) in
  let pr0 := recomputed (fresh_progress n) in
  exists r results w',
    preloadAll fuel env concurrency w = (r, w') /\
    tiles (preloader w') = tiles (preloader w) /\
    progress (preloader w') = progress_after pr0 results /\
    events w' = events w ++ pr0 :: updates pr0 results /\
    messages w'
    = messages w ++ (if hasBridge env then pr0 :: updates pr0 results else []) /\
    (r = Resolved (Some (progress_after pr0 results)) /\
       isPreloading (preloader w') = false
     \/ r = Pending /\ isPreloading (preloader w') = true) /\
    (1 <= concurrency -> (n < fuel)%nat -> r <> Pending) /\
    ((forall batch, Permutation (completionOrder env batch) batch) ->
     (length results <= n)%nat /\ (r <> Pending -> length results = n)).
Proof.
  intros Hidle n pr0.
  unfold preloadAll, bind at 1, get_state at 1. rewrite Hidle.
  unfold with_preloader, bind at 1, modify at 1.
  unfold bind at 1, modify at 1.
  unfold bind at 1. rewrite updateProgress_run.
  unfold bind at 1, get_state at 1.
  cbn [preloader tiles isPreloading progress cache events messages fetches].
  fold n.
  set (w1 := after_update env _).
  change (tiles (preloader w1)) with (tiles (preloader w)).
  destruct (processBatch_run concurrency fuel (tiles (preloader w)) w1)
    as (r & results & w2 & Hrun & Hfrom & Hend & Hfuel & Hcount).
  unfold bind. rewrite Hrun.
  destruct Hfrom as (Ht & Hp & Hpr & He & Hm).
  subst w1.
  cbn [after_update preloader tiles isPreloading progress cache events messages fetches]
    in Ht, Hp, Hpr, He, Hm.
  change (recomputed (mkProgress (Z.of_nat n) 0 0 (Fin 0) false)) with pr0
    in Hpr, He, Hm.
  destruct Hend as [-> | ->].
  - eexists _, results, _. unfold bind, modify, get_state, ret. cbn.
    split; [reflexivity|]. cbn. split; [exact Ht|]. split; [exact Hpr|].
    split; [rewrite He; now rewrite <- app_assoc|].
    split; [rewrite Hm; destruct (hasBridge env); [now rewrite <- app_assoc | reflexivity]|].
    split; [left; now rewrite Hpr|]. split; [discriminate|].
    intros Hperm. destruct (Hcount Hperm) as [Hle Heq]. split; [exact Hle | auto].
  - exists Pending, results, w2.
    split; [reflexivity|]. split; [exact Ht|]. split; [exact Hpr|].
    split; [rewrite He; now rewrite <- app_assoc|].
    split; [rewrite Hm; destruct (hasBridge env); [now rewrite <- app_assoc | reflexivity]|].
    split; [right; split; [reflexivity | exact Hp]|].
    split; [intros Hc Hn; specialize (Hfuel Hc Hn); discriminate|].
    intros Hperm. destruct (Hcount Hperm) as [Hle Heq]. split; [exact Hle | congruence].
Qed.

Lemma recomputed_fields (e : PreloadProgress) :
  recomputed e = e ->
  percentage e = Math_round (js_mul (js_div (attempted e) (total e)) 100) /\
  isComplete e = (attempted e >=? total e).
Proof. intros <-. split; reflexivity. Qed.

Lemma updates_nth_error (results : list bool) :
  forall pr i e,
    nth_error (updates pr results) i = Some e ->
    total e = total pr /\
    attempted e = attempted pr + Z.of_nat i + 1 /\
    loaded pr <= loaded e /\ failed pr <= failed e /\
    recomputed e = e /\ (i < length results)%nat.
Proof.
  induction results as [|ok rest IH]; intros pr i e Hnth.
  - destruct i; discriminate.
  - destruct i as [|i]; simpl in Hnth.
    + inversion Hnth; subst e. unfold attempted.
      destruct ok; cbn; repeat split; lia.
    + apply IH in Hnth as (Ht & Ha & Hl & Hf & Hr & Hi).
      unfold attempted in *. destruct ok; cbn in *; repeat split; try assumption; lia.
Qed.

Lemma run_events_nth_error (n : nat) (results : list bool) (i : nat) (e : PreloadProgress) :
  nth_error (recomputed (fresh_progress n) :: updates (recomputed (fresh_progress n)) results) i
  = Some e ->
  total e = Z.of_nat n /\ attempted e = Z.of_nat i /\
  0 <= loaded e /\ 0 <= failed e /\ recomputed e = e /\ (i <= length results)%nat.
Proof.
  destruct i as [|i]; simpl.
  - intros H. inversion H; subst e. unfold attempted. cbn. repeat split; lia.
  - intros H. apply updates_nth_error in H as (Ht & Ha & Hl & Hf & Hr & Hi).
    unfold attempted in *. cbn in *. repeat split; try assumption; lia.
Qed.

Lemma progress_after_in (results : list bool) :
  forall pr, In (progress_after pr results) (pr :: updates pr results).
Proof.
  induction results as [|ok rest IH]; intros pr.
  - now left.
  - right. apply IH.
Qed.

Lemma progress_after_counts (results : list bool) :
  forall pr,
    total (progress_after pr results) = total pr /\
    loaded (progress_after pr results) = loaded pr + count_of true results /\
    failed (progress_after pr results) = failed pr + count_of false results.
Proof.
  unfold count_of.
  induction results as [|ok rest IH]; intros pr.
  - cbn. repeat split; lia.
  - cbn [progress_after].
    destruct (IH (recomputed (count_attempt ok pr))) as (Ht & Hl & Hf).
    rewrite Ht, Hl, Hf.
    destruct ok; cbn [List.filter Bool.eqb length recomputed count_attempt total loaded failed];
      rewrite ?Nat2Z.inj_succ; repeat split; lia.
Qed.

Lemma count_of_total (results : list bool) :
  count_of true results + count_of false results = Z.of_nat (length results).
Proof.
  unfold count_of. induction results as [|[|] rest IH];
    cbn [List.filter Bool.eqb length] in *; lia.
Qed.

(** Every update of a run, and the progress record at its end. *)
Lemma run_progress_facts (n : nat) (results : list bool) (e : PreloadProgress) :
  (length results <= n)%nat ->
  In e (recomputed (fresh_progress n) :: updates (recomputed (fresh_progress n)) results) ->
  total e = Z.of_nat n /\ 0 <= loaded e /\ 0 <= failed e /\
  attempted e <= total e /\ recomputed e = e.
Proof.
  intros Hlen Hin. apply In_nth_error in Hin as [i Hi].
  apply run_events_nth_error in Hi as (Ht & Ha & Hl & Hf & Hr & Hle).
  repeat split; try assumption. lia.
Qed.


(** C4. In every progress update of a run, and in the progress record it
    ends with, isComplete is true exactly when loaded + failed = total. *)
Theorem complete_iff_all_attempted (fuel : nat) (concurrency : Z) (w w' : World)
  (r : outcome (option PreloadProgress)) :
  (forall batch, Permutation (completionOrder env batch) batch) ->
  isPreloading (preloader w) = false ->
  preloadAll fuel env concurrency w = (r, w') ->
  exists updates_of_run : list PreloadProgress,
    events w' = events w ++ updates_of_run /\
    messages w' = messages w ++ (if hasBridge env then updates_of_run else []) /\
    updates_of_run <> [] /\
    (forall e,
        In e updates_of_run \/ e = progress (preloader w') \/ r = Resolved (Some e) ->
        (isComplete e = true <-> loaded e + failed e = total e)).
Proof.
  intros Hperm Hidle Hrun.
  destruct (preloadAll_run fuel concurrency w Hidle)
    as (r0 & results & w0 & Hrun0 & _ & Hpr & He & Hm & Hend & _ & Hcount).
  rewrite Hrun in Hrun0. inversion Hrun0; subst r0 w0. clear Hrun0.
  destruct (Hcount Hperm) as [Hlen _].
  set (n := length (tiles (preloader w))) in *.
  set (pr0 := recomputed (fresh_progress n)) in *.
  assert (Hlast : In (progress (preloader w')) (pr0 :: updates pr0 results)).
  { rewrite Hpr. apply progress_after_in. }
  assert (Hfact : forall e, In e (pr0 :: updates pr0 results) ->
            (isComplete e = true <-> loaded e + failed e = total e)).
  { intros e Hin.
    destruct (run_progress_facts n results e Hlen Hin) as (Ht & Hl & Hf & Ha & Hr).
    destruct (recomputed_fields e Hr) as [_ Hc]. unfold attempted in *.
    rewrite Hc. rewrite Z.geb_le. lia. }
  exists (pr0 :: updates pr0 results).
  split; [exact He|]. split; [exact Hm|]. split; [discriminate|].
  intros e [Hin | [-> | Hres]].
  - apply Hfact, Hin.
  - apply Hfact, Hlast.
  - destruct Hend as [[Hr _] | [Hr _]]; rewrite Hr in Hres; [|discriminate].
    inversion Hres; subst e. rewrite <- Hpr. apply Hfact, Hlast.
Qed.

Lemma preloadAll_settles_or_pends (fuel : nat) (concurrency : Z) (w : World) (e : Error) :
  fst (preloadAll fuel env concurrency w) <> Rejected e.
Proof.
  destruct (isPreloading (preloader w)) eqn:Hflag.
  - unfold preloadAll, bind, get_state. rewrite Hflag. discriminate.
  - destruct (preloadAll_run fuel concurrency w Hflag)
      as (r & results & w' & Hrun & _ & _ & _ & _ & Hend & _).
    rewrite Hrun. simpl. destruct Hend as [[-> _] | [-> _]]; discriminate.
Qed.

(** C5. No failure of a tile makes [preloadAll] reject.  Each attempt
    resolves; a failing one adds one to [failed] and nothing to [loaded];
    and with a positive concurrency the run goes through every tile and
    resolves with the final progress. *)
Theorem tile_failures_are_counted (fuel : nat) (concurrency : Z) (w : World) :
  (forall batch, Permutation (completionOrder env batch) batch) ->
  isPreloading (preloader w) = false ->
  1 <= concurrency ->
  (length (tiles (preloader w)) < fuel)%nat ->
  (exists final w' results,
      preloadAll fuel env concurrency w = (Resolved (Some final), w') /\
      progress (preloader w') = final /\
      isPreloading (preloader w') = false /\
      length results = length (tiles (preloader w)) /\
      events w'
      = events w
        ++ recomputed (fresh_progress (length (tiles (preloader w))))
           :: updates (recomputed (fresh_progress (length (tiles (preloader w))))) results /\
      total final = Z.of_nat (length (tiles (preloader w))) /\
      loaded final = count_of true results /\
      failed final = count_of false results /\
      loaded final + failed final = total final /\
      isComplete final = true) /\
  (forall tile w0,
      let ok := attempt_succeeds env tile (cache w0) in
      exists w1,
        preloadTile env tile w0 = (Resolved ok, w1) /\
        loaded (progress (preloader w1))
        = loaded (progress (preloader w0)) + (if ok then 1 else 0) /\
        failed (progress (preloader w1))
        = failed (progress (preloader w0)) + (if ok then 0 else 1)) /\
  (forall fuel' concurrency' w0 e,
      fst (preloadAll fuel' env concurrency' w0) <> Rejected e).
Proof.
  intros Hperm Hidle Hc Hfuel. split; [|split].
  - destruct (preloadAll_run fuel concurrency w Hidle)
      as (r & results & w' & Hrun & _ & Hpr & He & _ & Hend & Hlive & Hcount).
    specialize (Hlive Hc Hfuel). destruct (Hcount Hperm) as [_ Hlen].
    specialize (Hlen Hlive).
    destruct Hend as [[-> Hflag] | [-> _]]; [|contradiction].
    set (n := length (tiles (preloader w))) in *.
    destruct (progress_after_counts results (recomputed (fresh_progress n)))
      as (Ht & Hl & Hf).
    pose proof (count_of_total results) as Hsum.
    assert (Hrec : recomputed (progress_after (recomputed (fresh_progress n)) results)
                   = progress_after (recomputed (fresh_progress n)) results).
    { eapply run_progress_facts; [|apply progress_after_in]. lia. }
    destruct (recomputed_fields _ Hrec) as [_ Hdone].
    exists (progress_after (recomputed (fresh_progress n)) results), w', results.
    split; [exact Hrun|]. split; [exact Hpr|]. split; [exact Hflag|].
    split; [exact Hlen|]. split; [exact He|]. split; [exact Ht|].
    split; [rewrite Hl; cbn; lia|]. split; [rewrite Hf; cbn; lia|].
    assert (Hall : loaded (progress_after (recomputed (fresh_progress n)) results)
                   + failed (progress_after (recomputed (fresh_progress n)) results)
                   = total (progress_after (recomputed (fresh_progress n)) results)).
    { rewrite Ht, Hl, Hf. cbn. lia. }
    split; [exact Hall|].
    rewrite Hdone. unfold attempted. rewrite Hall. apply Z.geb_le. lia.
  - intros tile w0 ok. destruct (preloadTile_run tile w0) as (c & urls & Hrun).
    eexists. split; [exact Hrun|]. fold ok.
    unfold after_attempt, after_update. destruct ok; cbn; lia.
  - intros fuel' concurrency' w0 e. apply preloadAll_settles_or_pends.
Qed.

(** A run that has not settled holds the flag. *)
Lemma run_in_flight_holds_flag (fuel : nat) (concurrency : Z) (w w' : World) :
  isPreloading (preloader w) = false ->
  preloadAll fuel env concurrency w = (Pending, w') ->
  isPreloading (preloader w') = true.
Proof.
  intros Hidle Hrun.
  destruct (preloadAll_run fuel concurrency w Hidle)
    as (r & results & w0 & Hrun0 & _ & _ & _ & _ & Hend & _).
  rewrite Hrun in Hrun0. inversion Hrun0; subst.
  destruct Hend as [[Hr _] | [_ Hflag]]; [discriminate | exact Hflag].
Qed.

(** C6. A call of [preloadAll] made while [isPreloading] is true, as it is
    on every page that a run which has not settled has reached, returns at
    once: nothing of the page changes (neither the progress of the run in
    flight, nor the events, nor the fetches, nor the cache), and no attempt
    starts. *)
Theorem preloadAll_while_preloading (fuel : nat) (concurrency : Z) (w : World) :
  isPreloading (preloader w) = true \/
  (exists fuel0 concurrency0 w0,
      isPreloading (preloader w0) = false /\
      preloadAll fuel0 env concurrency0 w0 = (Pending, w)) ->
  preloadAll fuel env concurrency w = (Resolved None, w).
Proof.
  intros Hbusy.
  assert (Hflag : isPreloading (preloader w) = true).
  { destruct Hbusy as [Hflag | (fuel0 & concurrency0 & w0 & Hidle & Hrun)].
    - exact Hflag.
    - eapply run_in_flight_holds_flag; eassumption. }
  unfold preloadAll, bind, get_state. rewrite Hflag. reflexivity.
Qed.

Lemma hasTile_settles (z x y : Z) (c : TileCache.t) :
  fst (TileCache.hasTile (cacheEnv env) z x y c) <> Pending.
Proof.
  pose proof (getTile_settles (cacheEnv env) z x y c) as Hget.
  unfold TileCache.hasTile, bind.
  destruct (TileCache.getTile (cacheEnv env) z x y c) as [[tile|e|] c']; simpl in *;
    [discriminate | discriminate | contradiction].
Qed.

Lemma hasTile_keeps_stores (z x y : Z) (c : TileCache.t) stores :
  TileCache.idb c = Some stores ->
  TileCache.idb (snd (TileCache.hasTile (cacheEnv env) z x y c)) = Some stores.
Proof.
  unfold TileCache.hasTile, TileCache.getTile, TileCache.ensure_db, TileCache.init,
    TileCache.objectStore, TileCache.request, bind, get_state, ret, throw.
  destruct c as [[|] i]; cbn; intros ->;
    repeat (match goal with
            | |- context [if ?b then _ else _] => destruct b; cbn
            | |- context [match ?m !! ?k with _ => _ end] => destruct (m !! k); cbn
            end); reflexivity.
Qed.

Lemma check_loop (l : list Tile.t) :
  forall (acc : async World Z) (w w1 : World) (k : Z),
    acc w = (Resolved k, w1) ->
    exists c',
      for_of l (check_tile env) acc w
      = (Resolved (k + tiles_reported_cached (cacheEnv env) l (cache w1)),
         mkWorld (preloader w1) c' (events w1) (messages w1) (fetches w1)) /\
      (forall stores, TileCache.idb (cache w1) = Some stores ->
                      TileCache.idb c' = Some stores).
Proof.
  induction l as [|tile rest IH]; intros acc w w1 k Hacc.
  - exists (cache w1). simpl. rewrite Hacc, Z.add_0_r. destruct w1; auto.
  - cbn [for_of fold_left tiles_reported_cached].
    pose proof (hasTile_settles (Tile.z tile) (Tile.x tile) (Tile.y tile) (cache w1))
      as Hsettle.
    pose proof (hasTile_keeps_stores (Tile.z tile) (Tile.x tile) (Tile.y tile) (cache w1))
      as Hkeep.
    destruct (TileCache.hasTile (cacheEnv env) (Tile.z tile) (Tile.x tile) (Tile.y tile)
                (cache w1)) as [r c1] eqn:Hhas.
    simpl in Hsettle, Hkeep.
    assert (Hturn : check_tile env tile acc w
              = (Resolved (k + match r with Resolved true => 1 | _ => 0 end),
                 mkWorld (preloader w1) c1 (events w1) (messages w1) (fetches w1))).
    { unfold check_tile, bind, try_catch, on_cache, zoom_in, ret.
      rewrite Hacc, Hhas.
      destruct r as [[|]|e|]; cbn; rewrite ?Z.add_0_r; try reflexivity.
      contradiction. }
    destruct (IH (check_tile env tile acc) w _ _ Hturn) as (c' & Hloop & Hstores).
    exists c'. unfold for_of in Hloop. rewrite Hloop. cbn. split.
    + f_equal. f_equal. lia.
    + intros stores Hs. apply Hstores, Hkeep, Hs.
Qed.

(** C8. [checkCachedCount] fetches nothing: it leaves the fetch log, the
    events, the messages and the preloader as they were, and the entries
    of an existing database too.  It walks [this.tiles], the list that
    [preloadAll] walks, and answers with the number of tiles for which
    [hasTile] resolved to true, a rejected check counting as not cached. *)
Theorem checkCachedCount_only_checks (w : World) :
  exists c',
    checkCachedCount env w
    = (Resolved
         (mkCachedCount
            (Z.of_nat (length (tiles (preloader w))))
            (tiles_reported_cached (cacheEnv env) (tiles (preloader w)) (cache w))
            (Math_round
               (js_mul (js_div (tiles_reported_cached (cacheEnv env)
                                  (tiles (preloader w)) (cache w))
                               (Z.of_nat (length (tiles (preloader w))))) 100))),
       mkWorld (preloader w) c' (events w) (messages w) (fetches w)) /\
    (forall stores, TileCache.idb (cache w) = Some stores ->
                    TileCache.idb c' = Some stores).
Proof.
  destruct (check_loop (tiles (preloader w)) (ret 0) w w 0 eq_refl)
    as (c' & Hloop & Hstores).
  exists c'. split; [|exact Hstores].
  unfold checkCachedCount, bind at 1, get_state at 1.
  unfold bind at 1. fold (check_tile env). rewrite Hloop. reflexivity.
Qed.

End Preloader.

(** ** The host hook *)

Section Host.

Import useTilePreload.

Variable env : Env.

Lemma handleProgress_run (p : PreloadProgress) (w : World) :
  handleProgress env p w
  = (Resolved tt,
     if isComplete p && js_ge (percentage p) 90 then
       if call_fails env (SetItem PRELOAD_STATUS_KEY "true") then
         mkWorld (mk (Some p) (isPreloaded (hook w)) (isFirstLoad (hook w)))
                 (items w)
                 (calls w ++ [SetItem PRELOAD_STATUS_KEY "true"])
       else
         mkWorld (mk (Some p) true false)
                 (<[PRELOAD_STATUS_KEY := "true"]> (items w))
                 (calls w ++ [SetItem PRELOAD_STATUS_KEY "true"])
     else
       mkWorld (mk (Some p) (isPreloaded (hook w)) (isFirstLoad (hook w)))
               (items w) (calls w)).
Proof.
  unfold handleProgress, AsyncStorage_setItem, call, setProgress, setIsPreloaded,
    setIsFirstLoad, with_hook, try_catch, bind, modify, ret, throw, push.
  cbn. destruct (isComplete p && js_ge (percentage p) 90); cbn; [|reflexivity].
  destruct (call_fails env _); reflexivity.
Qed.

Lemma checkPreloadStatus_run (w : World) :
  checkPreloadStatus env w
  = (Resolved tt,
     let found :=
       negb (call_fails env (GetItem PRELOAD_STATUS_KEY))
       && match items w !! PRELOAD_STATUS_KEY with
          | Some v => String.eqb v "true"
          | None => false
          end in
     mkWorld (if found then mk (progress (hook w)) true false else hook w)
             (items w)
             (calls w ++ [GetItem PRELOAD_STATUS_KEY])).
Proof.
  unfold checkPreloadStatus, AsyncStorage_getItem, call, setIsPreloaded, setIsFirstLoad,
    with_hook, try_catch, bind, modify, get_state, ret, throw, push.
  cbn. destruct (call_fails env _); cbn; [reflexivity|].
  destruct (items w !! PRELOAD_STATUS_KEY) as [v|]; cbn; [|reflexivity].
  destruct (String.eqb v "true"); reflexivity.
Qed.

Lemma resetPreloadStatus_run (w : World) :
  resetPreloadStatus env w
  = (Resolved tt,
     if call_fails env (RemoveItem PRELOAD_STATUS_KEY) then
       mkWorld (hook w) (items w) (calls w ++ [RemoveItem PRELOAD_STATUS_KEY])
     else
       mkWorld initial (delete PRELOAD_STATUS_KEY (items w))
               (calls w ++ [RemoveItem PRELOAD_STATUS_KEY])).
Proof.
  unfold resetPreloadStatus, AsyncStorage_removeItem, call, setProgress, setIsPreloaded,
    setIsFirstLoad, with_hook, try_catch, bind, modify, ret, throw, push, initial.
  cbn. destruct (call_fails env _); reflexivity.
Qed.

(** C9, as the code has it.  The handler writes "true" under the key
    "@SemanaSanta:tilesPreloaded" exactly when the progress it receives has
    isComplete true and percentage >= 90, and the flag is stored when
    AsyncStorage accepts the write; it reads nothing and removes nothing.
    The mount effect reads that key once, writes nothing, and sets the
    preloaded state when the value is "true".  Only [resetPreloadStatus]
    removes the key. *)
Theorem completion_flag_contract (p : PreloadProgress) (w : World) :
  let qualifies := isComplete p && js_ge (percentage p) 90 in
  let accepted := negb (call_fails env (SetItem PRELOAD_STATUS_KEY "true")) in
  let after_progress := snd (handleProgress env p w) in
  let after_mount := snd (checkPreloadStatus env w) in
  let after_reset := snd (resetPreloadStatus env w) in
  PRELOAD_STATUS_KEY = "@SemanaSanta:tilesPreloaded"%string /\
  calls after_progress
  = calls w ++ (if qualifies then [SetItem PRELOAD_STATUS_KEY "true"] else []) /\
  items after_progress
  = (if qualifies && accepted then <[PRELOAD_STATUS_KEY := "true"]> (items w)
     else items w) /\
  (qualifies && accepted = true ->
   items after_progress !! PRELOAD_STATUS_KEY = Some "true"%string /\
   isPreloaded (hook after_progress) = true) /\
  (qualifies = false -> items after_progress = items w /\
                        isPreloaded (hook after_progress) = isPreloaded (hook w)) /\
  calls after_mount = calls w ++ [GetItem PRELOAD_STATUS_KEY] /\
  items after_mount = items w /\
  (isPreloaded (hook after_mount)
   = if negb (call_fails env (GetItem PRELOAD_STATUS_KEY))
        && bool_decide (items w !! PRELOAD_STATUS_KEY = Some "true"%string)
     then true else isPreloaded (hook w)) /\
  (forall v, items w !! PRELOAD_STATUS_KEY = Some v ->
             is_Some (items after_progress !! PRELOAD_STATUS_KEY) /\
             is_Some (items after_mount !! PRELOAD_STATUS_KEY)) /\
  (call_fails env (RemoveItem PRELOAD_STATUS_KEY) = false ->
   items after_reset !! PRELOAD_STATUS_KEY = None /\
   isPreloaded (hook after_reset) = false).
Proof.
  intros qualifies accepted after_progress after_mount after_reset.
  subst after_progress after_mount after_reset.
  rewrite handleProgress_run, checkPreloadStatus_run, resetPreloadStatus_run.
  subst qualifies accepted. cbn [snd].
  split; [reflexivity|].
  split.
  { destruct (isComplete p && js_ge (percentage p) 90);
      [destruct (call_fails env _); reflexivity | cbn; now rewrite app_nil_r]. }
  split.
  { destruct (isComplete p && js_ge (percentage p) 90);
      [destruct (call_fails env _); reflexivity | reflexivity]. }
  split.
  { intros H. apply andb_prop in H as [-> H]. apply negb_true_iff in H. rewrite H.
    cbn. split; [apply lookup_insert_eq | reflexivity]. }
  split.
  { intros ->. cbn. auto. }
  split; [reflexivity|]. split; [reflexivity|].
  split.
  { destruct (call_fails env (GetItem _)); cbn; [reflexivity|].
    destruct (items w !! PRELOAD_STATUS_KEY) as [v|] eqn:Hv.
    - destruct (String.eqb_spec v "true") as [->|Hne].
      + rewrite bool_decide_eq_true_2 by reflexivity. reflexivity.
      + rewrite bool_decide_eq_false_2 by congruence. reflexivity.
    - rewrite bool_decide_eq_false_2 by discriminate. reflexivity. }
  split.
  { intros v Hv. split.
    - destruct (isComplete p && js_ge (percentage p) 90);
        [destruct (call_fails env _)|]; cbn; rewrite ?lookup_insert_eq; eauto.
    - cbn. eauto. }
  intros ->. cbn. split; [apply lookup_delete_eq | reflexivity].
Qed.

End Host.

(** ** Scenarios *)

Section Scenarios.

Lemma reversal_is_reordering (batch : list Tile.t) :
  Permutation (TilePreloader.completionOrder Scenario.env batch) batch.
Proof. symmetry. apply Permutation_rev. Qed.

(** All four tiles load. *)
Example all_four_load :
  fst (TilePreloader.preloadAll 4
         (TilePreloader.mkEnv Scenario.storage
            (fun _ => TilePreloader.Response true (Some [])) true (fun batch => batch))
         4 Scenario.page)
  = Resolved (Some (mkProgress 4 4 0 (Fin 100) true)).
Proof. vm_compute. reflexivity. Qed.

(** With a concurrency of 0 every batch is empty: the queue never shrinks
    and the promise does not settle, whatever the number of steps. *)
Example zero_concurrency_stays_pending :
  fst (TilePreloader.preloadAll 50 Scenario.env 0 Scenario.page) = Pending.
Proof. vm_compute. reflexivity. Qed.

(** An empty tile list, which the configuration never produces, would give
    0 / 0 for the ratio. *)
Example empty_tile_list_has_no_percentage :
  fst (TilePreloader.preloadAll 1 Scenario.env 4
         (TilePreloader.mkWorld (TilePreloader.create []) Scenario.unopened [] [] []))
  = Resolved (Some (mkProgress 0 0 0 NaN true)).
Proof. vm_compute. reflexivity. Qed.

(** One of four fetches fails. *)
Example one_of_four_fails :
  fst (TilePreloader.preloadAll 4 Scenario.env 4 Scenario.page)
  = Resolved (Some (mkProgress 4 3 1 (Fin 100) true)).
Proof. vm_compute. reflexivity. Qed.

(** C9 with the key as the specification spells it: a complete progress of
    100% is handled, the storage accepts the write, and nothing is stored
    under "tilesPreloaded"; the flag is under the prefixed key. *)
Lemma flag_is_not_under_the_bare_key :
  isComplete Scenario.done = true /\
  js_ge (percentage Scenario.done) 90 = true /\
  useTilePreload.items
    (snd (useTilePreload.handleProgress Scenario.host Scenario.done Scenario.device))
    !! "tilesPreloaded"%string = None /\
  useTilePreload.items
    (snd (useTilePreload.handleProgress Scenario.host Scenario.done Scenario.device))
    !! "@SemanaSanta:tilesPreloaded"%string = Some "true"%string.
Proof.
  rewrite handleProgress_run. cbn.
  split; [reflexivity|]. split; [reflexivity|]. split.
  - rewrite lookup_insert_ne by discriminate. apply lookup_empty.
  - apply lookup_insert_eq.
Qed.


Lemma complete_iff_all_attempted_witness :
  TilePreloader.isPreloading (TilePreloader.preloader Scenario.page) = false /\
  forall e,
    In e (TilePreloader.events
            (snd (TilePreloader.preloadAll 4 Scenario.env 4 Scenario.page))) ->
    (isComplete e = true <-> loaded e + failed e = total e).
Proof.
  split; [reflexivity|].
  destruct (complete_iff_all_attempted Scenario.env 4 4 Scenario.page
              (snd (TilePreloader.preloadAll 4 Scenario.env 4 Scenario.page))
              (fst (TilePreloader.preloadAll 4 Scenario.env 4 Scenario.page))
              reversal_is_reordering eq_refl (surjective_pairing _))
    as (us & He & _ & _ & Hall).
  intros e Hin. apply Hall. left. rewrite He in Hin. exact Hin.
Defined.

Lemma tile_failures_are_counted_witness :
  TilePreloader.isPreloading (TilePreloader.preloader Scenario.page) = false /\
  1 <= 4 /\
  (length (TilePreloader.tiles (TilePreloader.preloader Scenario.page)) < 5)%nat /\
  exists final w',
    TilePreloader.preloadAll 5 Scenario.env 4 Scenario.page = (Resolved (Some final), w') /\
    loaded final + failed final = total final.
Proof.
  split; [reflexivity|]. split; [lia|]. split; [simpl; lia|].
  destruct (tile_failures_are_counted Scenario.env 5 4 Scenario.page
              reversal_is_reordering eq_refl ltac:(lia) ltac:(simpl; lia))
    as ((final & w' & results & Hrun & _ & _ & _ & _ & _ & _ & _ & Hall & _) & _).
  exists final, w'. split; [exact Hrun | exact Hall].
Defined.

(** The page while the run of the scenario, one tile per batch, is between
    its first two batches. *)
Lemma preloadAll_while_preloading_witness :
  let in_flight := snd (TilePreloader.preloadAll 1 Scenario.env 1 Scenario.page) in
  TilePreloader.preloadAll 1 Scenario.env 1 Scenario.page = (Pending, in_flight) /\
  TilePreloader.preloadAll 4 Scenario.env 4 in_flight = (Resolved None, in_flight).
Proof.
  intros in_flight.
  assert (Hrun : TilePreloader.preloadAll 1 Scenario.env 1 Scenario.page
                 = (Pending, in_flight)) by (vm_compute; reflexivity).
  split; [exact Hrun|].
  apply (preloadAll_while_preloading Scenario.env 4 4 in_flight).
  right. exists 1%nat, 1, Scenario.page. split; [reflexivity | exact Hrun].
Defined.

Lemma saved_tile_is_found_witness :
  let s' := snd (TileCache.saveTile Scenario.storage 1 0 0 [] Scenario.unopened) in
  TileCache.saveTile Scenario.storage 1 0 0 [] Scenario.unopened = (Resolved tt, s') /\
  TileCache.hasTile Scenario.storage 1 0 0 s' = (Resolved true, s') /\
  TileCache.getTile Scenario.storage 1 0 0 s' = (Resolved (Some []), s').
Proof.
  intros s'.
  assert (Hsave : TileCache.saveTile Scenario.storage 1 0 0 [] Scenario.unopened
                  = (Resolved tt, s')) by (vm_compute; reflexivity).
  destruct (saved_tile_is_found Scenario.storage Scenario.unopened s' 1 0 0 [] Hsave eq_refl)
    as (Hget & Hhas & _).
  split; [exact Hsave|]. split; [exact Hhas | exact Hget].
Defined.

Lemma operations_init_lazily_witness :
  let s1 := snd (TileCache.init Scenario.storage Scenario.unopened) in
  TileCache.db Scenario.unopened = false /\
  TileCache.init Scenario.storage Scenario.unopened = (Resolved tt, s1) /\
  TileCache.getTile Scenario.storage 1 0 0 Scenario.unopened
  = TileCache.getTile Scenario.storage 1 0 0 s1 /\
  TileCache.clear Scenario.storage Scenario.unopened = TileCache.clear Scenario.storage s1.
Proof.
  intros s1.
  destruct (operations_init_lazily Scenario.storage Scenario.unopened s1 1 0 0 []
              eq_refl eq_refl) as (Hget & _ & _ & _ & Hclear).
  split; [reflexivity|]. split; [reflexivity|]. split; [exact Hget | exact Hclear].
Defined.

End Scenarios.

(** ** Keys and URLs *)

Section Strings.

Lemma pretty_N_char_numeral (d : N) : numeral_char (pretty_N_char d).
Proof.
  unfold numeral_char, pretty_N_char.
  repeat (match goal with |- context [match ?x with _ => _ end] => destruct x end);
    simpl; tauto.
Qed.

Lemma pretty_N_go_chars (c : Ascii.ascii) (n : N) :
  forall s, occurs c (pretty_N_go n s) -> occurs c s \/ numeral_char c.
Proof.
  induction (N.lt_wf_0 n) as [n _ IH]. intros s Hocc.
  destruct (N.eq_dec n 0%N) as [->|Hn].
  - rewrite pretty_N_go_0 in Hocc. now left.
  - rewrite pretty_N_go_step in Hocc by lia.
    apply IH in Hocc; [|apply N.div_lt; lia].
    destruct Hocc as [[<- | Hs] | Hnum]; auto using pretty_N_char_numeral.
Qed.

Lemma pretty_Z_chars (c : Ascii.ascii) (z : Z) :
  occurs c (pretty z) -> numeral_char c.
Proof.
  assert (Hpos : forall p, occurs c (pretty (N.pos p)) -> numeral_char c).
  { intros p. unfold pretty, pretty_N. destruct (decide (N.pos p = 0%N)) as [e|_]; [discriminate e|].
    intros Hocc. apply pretty_N_go_chars in Hocc as [[]|Hnum]. exact Hnum. }
  destruct z as [|p|p]; unfold pretty, pretty_Z.
  - simpl. intros [<- | []]. unfold numeral_char. simpl. tauto.
  - apply (Hpos p).
  - simpl. intros [<- | Hocc]; [unfold numeral_char; simpl; tauto | exact (Hpos p Hocc)].
Qed.

Lemma no_slash_in_numeral (z : Z) : ~ occurs "/"%char (pretty z).
Proof.
  intros Hocc. apply pretty_Z_chars in Hocc. unfold numeral_char in Hocc. simpl in Hocc.
  repeat (destruct Hocc as [Hocc | Hocc]; [discriminate|]). exact Hocc.
Qed.

Lemma no_brace_in_numeral (z : Z) : ~ occurs "{"%char (pretty z).
Proof.
  intros Hocc. apply pretty_Z_chars in Hocc. unfold numeral_char in Hocc. simpl in Hocc.
  repeat (destruct Hocc as [Hocc | Hocc]; [discriminate|]). exact Hocc.
Qed.

Lemma split_at_separator (c : Ascii.ascii) (s1 : string) :
  forall s2 t1 t2,
    ~ occurs c s1 -> ~ occurs c s2 ->
    s1 +:+ String c t1 = s2 +:+ String c t2 ->
    s1 = s2 /\ t1 = t2.
Proof.
  induction s1 as [|a s1 IH]; intros [|b s2] t1 t2 H1 H2 Heq; simpl in *.
  - inversion Heq. auto.
  - inversion Heq; subst. tauto.
  - inversion Heq; subst. tauto.
  - inversion Heq; subst. destruct (IH s2 t1 t2) as [-> ->]; auto.
Qed.

Lemma getKey_eq (z x y z' x' y' : Z) :
  TileCache.getKey z x y = TileCache.getKey z' x' y' ->
  z = z' /\ x = x' /\ y = y'.
Proof.
  unfold TileCache.getKey. intros Heq.
  change (pretty z +:+ String "/" (pretty x +:+ String "/" (pretty y))
          = pretty z' +:+ String "/" (pretty x' +:+ String "/" (pretty y'))) in Heq.
  apply split_at_separator in Heq as [Hz Heq]; try apply no_slash_in_numeral.
  apply split_at_separator in Heq as [Hx Hy]; try apply no_slash_in_numeral.
  repeat split; eapply (inj pretty); eassumption.
Qed.

(** X1. The key of a tile determines the tile: two coordinates with the
    same key are the same coordinate. *)
Theorem getKey_inj (z x y z' x' y' : Z) :
  TileCache.getKey z x y = TileCache.getKey z' x' y' ->
  z = z' /\ x = x' /\ y = y'.
Proof. apply getKey_eq. Qed.

Lemma getKey_inj_witness :
  TileCache.getKey 14 7874 6361 = TileCache.getKey 14 7874 6361 /\
  14 = 14 /\ 7874 = 7874 /\ 6361 = 6361.
Proof.
  split; [reflexivity|]. apply (getKey_inj 14 7874 6361 14 7874 6361). reflexivity.
Defined.

End Strings.

Section Urls.

Lemma replace_unfold (pat rep s : string) :
  replace pat rep s
  = if String.prefix pat s
    then rep +:+ String.substring (String.length pat) (String.length s) s
    else match s with
         | EmptyString => EmptyString
         | String c s' => String c (replace pat rep s')
         end.
Proof. destruct s; reflexivity. Qed.

Lemma replace_skip (p0 : Ascii.ascii) (pat rep : string) (s1 : string) :
  forall s2,
    ~ occurs p0 s1 ->
    replace (String p0 pat) rep (s1 +:+ s2) = s1 +:+ replace (String p0 pat) rep s2.
Proof.
  induction s1 as [|a s1 IH]; intros s2 Hno.
  - reflexivity.
  - simpl in Hno.
    change (String a s1 +:+ s2) with (String a (s1 +:+ s2)).
    rewrite replace_unfold. cbn [String.prefix].
    destruct (ascii_dec p0 a) as [->|Hne]; [tauto|].
    rewrite IH by tauto. reflexivity.
Qed.

Lemma subdomain_index (x y : Z) :
  (Z.to_nat (Z.abs (x + y) mod Z.of_nat (length TilePreloader.subdomains)) < 4)%nat.
Proof.
  change (Z.of_nat (length TilePreloader.subdomains)) with 4.
  pose proof (Z.mod_pos_bound (Z.abs (x + y)) 4). lia.
Qed.

(** X2. The URL of a tile is the CDN template with the three numbers in
    their places, on the host subdomains[|x + y| mod 4], which is one of
    the four configured subdomains. *)
Theorem getTileUrl_shape (z x y : Z) :
  let subdomain :=
    nth (Z.to_nat (Z.abs (x + y) mod 4)) TilePreloader.subdomains "undefined" in
  In subdomain TilePreloader.subdomains /\
  TilePreloader.getTileUrl z x y
  = "https://cartodb-basemaps-" +:+ subdomain
    +:+ ".global.ssl.fastly.net/rastertiles/voyager/"
    +:+ pretty z +:+ "/" +:+ pretty x +:+ "/" +:+ pretty y +:+ ".png".
Proof.
  intros subdomain. subst subdomain.
  pose proof (subdomain_index x y) as Hidx.
  unfold TilePreloader.getTileUrl.
  change (Z.of_nat (length TilePreloader.subdomains)) with 4 in *.
  pose proof (no_brace_in_numeral z) as Hz.
  pose proof (no_brace_in_numeral x) as Hx.
  generalize dependent (pretty z). generalize dependent (pretty x).
  generalize (pretty y). intros sy sx Hx sz Hz.
  destruct (Z.to_nat (Z.abs (x + y) mod 4)) as [|[|[|[|n]]]]; [| | | |lia].
  all: split; [simpl; tauto|].
  all: unfold TilePreloader.cdnUrl, TILE_CACHE_CONFIG.cdnUrl.
  all: simpl.
  all: repeat (rewrite replace_skip by assumption; simpl).
  all: reflexivity.
Qed.

End Urls.

(** ** More on the tile store *)

Section TileStoreMore.

Variable env : TileCache.Env.

Lemma ensure_db_cases (s : TileCache.t) :
  TileCache.ensure_db env s
  = if TileCache.db s then (Resolved tt, s)
    else if TileCache.open_ok env then (Resolved tt, opened s)
    else (Rejected OpenFailed, s).
Proof.
  unfold TileCache.ensure_db, TileCache.init, bind, get_state, ret, opened.
  destruct (TileCache.db s); cbn; [reflexivity|].
  destruct (TileCache.open_ok env); reflexivity.
Qed.

(** An operation that starts with the lazy [init]. *)
Lemma lazy_cases {A : Type} (k : async TileCache.t A) (s : TileCache.t) :
  bind (TileCache.ensure_db env) (fun _ => k) s
  = if TileCache.db s then k s
    else if TileCache.open_ok env then k (opened s)
    else (Rejected OpenFailed, s).
Proof.
  unfold bind. rewrite ensure_db_cases.
  destruct (TileCache.db s); [reflexivity|].
  destruct (TileCache.open_ok env); reflexivity.
Qed.

Lemma opened_db (s : TileCache.t) : TileCache.db (opened s) = true.
Proof. reflexivity. Qed.

(** A store whose database is open either holds the object store or has a
    database without it. *)
Lemma open_store_cases (s : TileCache.t) :
  TileCache.db s = true ->
  (exists stores objs, holds s stores objs) \/
  TileCache.objectStore s = (Rejected NoObjectStore, s).
Proof.
  destruct s as [d [stores|]]; cbn [TileCache.db]; intros ->.
  - destruct (stores !! TileCache.storeName) as [objs|] eqn:Hobjs.
    + left. exists stores, objs. split; [reflexivity | exact Hobjs].
    + right. unfold TileCache.objectStore. cbn [TileCache.idb]. now rewrite Hobjs.
  - right. reflexivity.
Qed.

Lemma getTile_missing (s : TileCache.t) (z x y : Z) :
  TileCache.db s = true ->
  TileCache.objectStore s = (Rejected NoObjectStore, s) ->
  TileCache.getTile env z x y s = (Rejected NoObjectStore, s).
Proof.
  intros Hdb Hmiss. unfold TileCache.getTile. rewrite lazy_cases, Hdb.
  unfold bind. now rewrite Hmiss.
Qed.

Lemma saveTile_missing (s : TileCache.t) (z x y : Z) (blob : Blob) :
  TileCache.db s = true ->
  TileCache.objectStore s = (Rejected NoObjectStore, s) ->
  TileCache.saveTile env z x y blob s = (Rejected NoObjectStore, s).
Proof.
  intros Hdb Hmiss. unfold TileCache.saveTile. rewrite lazy_cases, Hdb.
  unfold bind. now rewrite Hmiss.
Qed.

Lemma getKey_ne (z x y z' x' y' : Z) :
  (z, x, y) <> (z', x', y') -> TileCache.getKey z' x' y' <> TileCache.getKey z x y.
Proof. intros Hne Heq. apply getKey_eq in Heq as (-> & -> & ->). now apply Hne. Qed.

Lemma getTile_open_rejected (s : TileCache.t) stores objs (z x y : Z) :
  holds s stores objs ->
  TileCache.request_fails env (TileCache.ReqGet (TileCache.getKey z x y)) = true ->
  TileCache.getTile env z x y s = (Rejected RequestFailed, s).
Proof.
  intros [-> Hobjs] Hreq.
  unfold TileCache.getTile, TileCache.ensure_db, TileCache.objectStore,
    TileCache.request, bind, get_state, ret, throw. simpl.
  rewrite Hobjs, Hreq. reflexivity.
Qed.

Lemma saveTile_frame_open (s s' : TileCache.t) (z x y z' x' y' : Z)
  (blob : Blob) (r : outcome unit) :
  TileCache.db s = true ->
  (z, x, y) <> (z', x', y') ->
  TileCache.saveTile env z' x' y' blob s = (r, s') ->
  fst (TileCache.getTile env z x y s') = fst (TileCache.getTile env z x y s).
Proof.
  intros Hdb Hne Hsave.
  destruct (open_store_cases s Hdb) as [(stores & objs & Hs) | Hmiss].
  - rewrite (saveTile_open env s stores objs z' x' y' blob Hs) in Hsave.
    destruct (TileCache.request_fails env (TileCache.ReqPut _));
      inversion Hsave; subst; [reflexivity|].
    destruct (TileCache.request_fails env (TileCache.ReqGet (TileCache.getKey z x y)))
      eqn:Hget.
    + rewrite (getTile_open_rejected s stores objs z x y Hs Hget).
      erewrite getTile_open_rejected;
        [| split; [reflexivity | apply lookup_insert_eq] | exact Hget].
      reflexivity.
    + rewrite (getTile_open env s stores objs z x y Hs Hget).
      erewrite getTile_open; [| split; [reflexivity | apply lookup_insert_eq] | exact Hget].
      cbn. rewrite lookup_insert_ne by (apply getKey_ne; exact Hne). reflexivity.
  - rewrite saveTile_missing in Hsave by assumption. inversion Hsave; subst. reflexivity.
Qed.

(** X3. Writing one tile changes what no other tile reads: whatever the
    state of the store, and whether the write resolves or rejects,
    [getTile] of a different coordinate gives afterwards the result it gave
    before. *)
Theorem saveTile_leaves_other_tiles (s s' : TileCache.t) (z x y z' x' y' : Z)
  (blob : Blob) (r : outcome unit) :
  (z, x, y) <> (z', x', y') ->
  TileCache.saveTile env z' x' y' blob s = (r, s') ->
  fst (TileCache.getTile env z x y s') = fst (TileCache.getTile env z x y s).
Proof.
  intros Hne Hsave.
  destruct (TileCache.db s) eqn:Hdb.
  - eapply saveTile_frame_open; eassumption.
  - unfold TileCache.saveTile in Hsave. rewrite lazy_cases, Hdb in Hsave.
    unfold TileCache.getTile at 2. rewrite lazy_cases, Hdb.
    destruct (TileCache.open_ok env) eqn:Hopen.
    + fold (TileCache.getTile env z x y).
      assert (Hsave' : TileCache.saveTile env z' x' y' blob (opened s) = (r, s')).
      { unfold TileCache.saveTile. rewrite lazy_cases, opened_db. exact Hsave. }
      rewrite (saveTile_frame_open (opened s) s' z x y z' x' y' blob r
                 (opened_db s) Hne Hsave').
      unfold TileCache.getTile. rewrite lazy_cases, opened_db. reflexivity.
    + inversion Hsave; subst.
      unfold TileCache.getTile. rewrite lazy_cases, Hdb, Hopen. reflexivity.
Qed.

Lemma getStats_open (s : TileCache.t) stores objs :
  holds s stores objs ->
  TileCache.getStats env s
  = if TileCache.request_fails env TileCache.ReqCount then (Rejected RequestFailed, s)
    else (Resolved (TileCache.mkStats (size objs)), s).
Proof.
  intros [-> Hobjs].
  unfold TileCache.getStats, TileCache.ensure_db, TileCache.objectStore,
    TileCache.request, bind, get_state, ret, throw. simpl.
  rewrite Hobjs. destruct (TileCache.request_fails env _); reflexivity.
Qed.

Lemma clear_open (s : TileCache.t) stores objs :
  holds s stores objs ->
  TileCache.clear env s
  = if TileCache.request_fails env TileCache.ReqClear then (Rejected RequestFailed, s)
    else (Resolved tt, TileCache.mk true (Some (<[TileCache.storeName := ∅]> stores))).
Proof.
  intros [-> Hobjs].
  unfold TileCache.clear, TileCache.ensure_db, TileCache.objectStore,
    TileCache.request, TileCache.write_store, bind, get_state, ret, throw, modify. simpl.
  rewrite Hobjs. destruct (TileCache.request_fails env _); reflexivity.
Qed.

Lemma clear_missing (s : TileCache.t) :
  TileCache.db s = true ->
  TileCache.objectStore s = (Rejected NoObjectStore, s) ->
  TileCache.clear env s = (Rejected NoObjectStore, s).
Proof.
  intros Hdb Hmiss. unfold TileCache.clear. rewrite lazy_cases, Hdb.
  unfold bind. now rewrite Hmiss.
Qed.

Lemma clear_resolved (s s' : TileCache.t) :
  TileCache.clear env s = (Resolved tt, s') ->
  exists stores, holds s' (<[TileCache.storeName := ∅]> stores) ∅.
Proof.
  assert (Hopen : forall s0, TileCache.db s0 = true ->
            TileCache.clear env s0 = (Resolved tt, s') ->
            exists stores, holds s' (<[TileCache.storeName := ∅]> stores) ∅).
  { intros s0 Hdb Hclear.
    destruct (open_store_cases s0 Hdb) as [(stores & objs & Hs) | Hmiss].
    - rewrite (clear_open s0 stores objs Hs) in Hclear.
      destruct (TileCache.request_fails env _); inversion Hclear; subst.
      exists stores. split; [reflexivity | apply lookup_insert_eq].
    - rewrite clear_missing in Hclear by assumption. discriminate. }
  intros Hclear. destruct (TileCache.db s) eqn:Hdb; [now apply (Hopen s)|].
  pose proof Hclear as Hclear'. unfold TileCache.clear in Hclear'.
  rewrite lazy_cases, Hdb in Hclear'.
  destruct (TileCache.open_ok env); [|discriminate].
  apply (Hopen (opened s)); [reflexivity|].
  unfold TileCache.clear. rewrite lazy_cases, opened_db. exact Hclear'.
Qed.

(** X4. On a usable store a write of a tile that was absent raises the
    tile count by one, and a write over a stored tile leaves the count as
    it was. *)
Theorem saveTile_count (s s' : TileCache.t) stores objs (z x y : Z) (blob : Blob) :
  holds s stores objs ->
  TileCache.request_fails env TileCache.ReqCount = false ->
  TileCache.saveTile env z x y blob s = (Resolved tt, s') ->
  TileCache.getStats env s'
  = (Resolved (TileCache.mkStats
                 (match objs !! TileCache.getKey z x y with
                  | Some _ => size objs
                  | None => S (size objs)
                  end)), s').
Proof.
  intros Hs Hcount Hsave.
  rewrite (saveTile_open env s stores objs z x y blob Hs) in Hsave.
  destruct (TileCache.request_fails env (TileCache.ReqPut _)); [discriminate|].
  inversion Hsave; subst s'. clear Hsave.
  erewrite getStats_open; [| split; [reflexivity | apply lookup_insert_eq]].
  rewrite Hcount. do 2 f_equal.
  destruct (objs !! TileCache.getKey z x y) as [old|] eqn:Hold.
  - f_equal. apply map_size_insert_Some. rewrite Hold. eauto.
  - f_equal. apply map_size_insert_None. exact Hold.
Qed.

(** X5. After a [clear] that resolved the store is empty: every [getTile]
    whose request goes through resolves to the absent value, [hasTile] to
    false, and the tile count is 0. *)
Theorem clear_empties (s s' : TileCache.t) (z x y : Z) :
  TileCache.clear env s = (Resolved tt, s') ->
  (TileCache.request_fails env (TileCache.ReqGet (TileCache.getKey z x y)) = false ->
   TileCache.getTile env z x y s' = (Resolved None, s') /\
   TileCache.hasTile env z x y s' = (Resolved false, s')) /\
  (TileCache.request_fails env TileCache.ReqCount = false ->
   TileCache.getStats env s' = (Resolved (TileCache.mkStats 0), s')).
Proof.
  intros Hclear. destruct (clear_resolved s s' Hclear) as (stores & Hs'). split.
  - intros Hget.
    assert (H : TileCache.getTile env z x y s' = (Resolved None, s')).
    { rewrite (getTile_open env s' _ _ z x y Hs' Hget). now rewrite lookup_empty. }
    split; [exact H|]. unfold TileCache.hasTile, bind. now rewrite H.
  - intros Hcount. rewrite (getStats_open s' _ _ Hs'), Hcount.
    now rewrite map_size_empty.
Qed.

(** X6. When the database cannot be opened, every operation on a store
    that is not open yet rejects with the error of the open request and
    leaves the store as it was. *)
Theorem unavailable_storage_rejects (s : TileCache.t) (z x y : Z) (blob : Blob) :
  TileCache.open_ok env = false ->
  TileCache.db s = false ->
  TileCache.init env s = (Rejected OpenFailed, s) /\
  TileCache.getTile env z x y s = (Rejected OpenFailed, s) /\
  TileCache.saveTile env z x y blob s = (Rejected OpenFailed, s) /\
  TileCache.hasTile env z x y s = (Rejected OpenFailed, s) /\
  TileCache.getStats env s = (Rejected OpenFailed, s) /\
  TileCache.clear env s = (Rejected OpenFailed, s).
Proof.
  intros Hopen Hdb.
  assert (Hget : TileCache.getTile env z x y s = (Rejected OpenFailed, s)).
  { unfold TileCache.getTile. now rewrite lazy_cases, Hdb, Hopen. }
  split; [unfold TileCache.init; now rewrite Hopen|].
  split; [exact Hget|].
  split; [unfold TileCache.saveTile; now rewrite lazy_cases, Hdb, Hopen|].
  split; [unfold TileCache.hasTile, bind; now rewrite Hget|].
  split; [unfold TileCache.getStats; now rewrite lazy_cases, Hdb, Hopen|].
  unfold TileCache.clear. now rewrite lazy_cases, Hdb, Hopen.
Qed.

(** X7. [init] can be called again: a second call resolves and changes
    nothing.  The first call creates the empty object store on a device
    without database and keeps the object stores of an existing one. *)
Theorem init_idempotent (s s1 : TileCache.t) :
  TileCache.init env s = (Resolved tt, s1) ->
  TileCache.init env s1 = (Resolved tt, s1) /\
  (TileCache.idb s = None ->
   holds s1 {[TileCache.storeName := ∅]} ∅) /\
  (forall stores, TileCache.idb s = Some stores -> TileCache.idb s1 = Some stores).
Proof.
  unfold TileCache.init. destruct (TileCache.open_ok env); [|discriminate].
  intros H. inversion H; subst s1. clear H. cbn [TileCache.idb]. split; [reflexivity|].
  split.
  - intros ->. unfold TileCache.onupgradeneeded. rewrite lookup_empty.
    split; [reflexivity | apply lookup_insert_eq].
  - intros stores ->. reflexivity.
Qed.

(** X8. A write that rejects is not visible: after it every [getTile], of
    the same coordinate or of another, gives the result it gave before. *)
Theorem rejected_saveTile_is_invisible (s s' : TileCache.t) (z x y z' x' y' : Z)
  (blob : Blob) (e : Error) :
  TileCache.saveTile env z' x' y' blob s = (Rejected e, s') ->
  fst (TileCache.getTile env z x y s') = fst (TileCache.getTile env z x y s).
Proof.
  assert (Hopen : forall s0, TileCache.db s0 = true ->
            TileCache.saveTile env z' x' y' blob s0 = (Rejected e, s') -> s' = s0).
  { intros s0 Hdb Hsave.
    destruct (open_store_cases s0 Hdb) as [(stores & objs & Hs) | Hmiss].
    - rewrite (saveTile_open env s0 stores objs z' x' y' blob Hs) in Hsave.
      destruct (TileCache.request_fails env _); inversion Hsave; reflexivity.
    - rewrite saveTile_missing in Hsave by assumption. inversion Hsave; reflexivity. }
  intros Hsave. destruct (TileCache.db s) eqn:Hdb.
  - now rewrite (Hopen s Hdb Hsave).
  - pose proof Hsave as Hsave'. unfold TileCache.saveTile in Hsave'.
    rewrite lazy_cases, Hdb in Hsave'.
    unfold TileCache.getTile at 2. rewrite lazy_cases, Hdb.
    destruct (TileCache.open_ok env) eqn:Ho.
    + rewrite (Hopen (opened s) (opened_db s)).
      * unfold TileCache.getTile. now rewrite lazy_cases, opened_db.
      * unfold TileCache.saveTile. rewrite lazy_cases, opened_db. exact Hsave'.
    + inversion Hsave'; subst. unfold TileCache.getTile.
      now rewrite lazy_cases, Hdb, Ho.
Qed.

End TileStoreMore.

(** ** More on the tile arithmetic *)

Section TileSetMore.

Local Open Scope R_scope.










Local Close Scope R_scope.

Lemma zrange_NoDup (lo hi : Z) : List.NoDup (zrange lo hi).
Proof.
  unfold zrange. apply List.NoDup_map_NoDup_ForallPairs; [|apply List.seq_NoDup].
  intros a b _ _ Heq. lia.
Qed.

Lemma length_zrange (lo hi : Z) : length (zrange lo hi) = Z.to_nat (hi + 1 - lo).
Proof. unfold zrange. now rewrite List.length_map, List.length_seq. Qed.

Lemma NoDup_flat_map_disjoint {A B : Type} (f : A -> list B) (l : list A) :
  List.NoDup l ->
  (forall a, List.NoDup (f a)) ->
  (forall a a' t, In t (f a) -> In t (f a') -> a = a') ->
  List.NoDup (flat_map f l).
Proof.
  intros Hl Hf Hdis. induction Hl as [|a l Hnotin Hl IH]; cbn [flat_map].
  - constructor.
  - apply List.NoDup_app; [apply Hf | exact IH |].
    intros t Ht Hin. apply in_flat_map in Hin as (a' & Ha' & Ht').
    rewrite (Hdis a a' t Ht Ht') in Hnotin. contradiction.
Qed.

Lemma tile_grid_NoDup (z x0 x1 y0 y1 : Z) : List.NoDup (tile_grid z x0 x1 y0 y1).
Proof.
  unfold tile_grid. apply NoDup_flat_map_disjoint.
  - apply zrange_NoDup.
  - intros x. apply List.NoDup_map_NoDup_ForallPairs; [|apply zrange_NoDup].
    intros a b _ _ Heq. now inversion Heq.
  - intros x x' t Ht Ht'.
    apply in_map_iff in Ht as (y & <- & _). apply in_map_iff in Ht' as (y' & Heq & _).
    now inversion Heq.
Qed.

(** X12. When no zoom level is listed twice, no tile is listed twice. *)
Theorem getTilesForBounds_NoDup (b : Bounds) (zoomLevels : list Z) :
  List.NoDup zoomLevels -> List.NoDup (getTilesForBounds b zoomLevels).
Proof.
  intros Hz. rewrite getTilesForBounds_flat_map. apply NoDup_flat_map_disjoint.
  - exact Hz.
  - intros z. apply tile_grid_NoDup.
  - intros z z' t Ht Ht'.
    apply elem_of_tile_grid in Ht as (<- & _). apply elem_of_tile_grid in Ht' as (<- & _).
    reflexivity.
Qed.

Lemma getTilesForBounds_NoDup_witness :
  List.NoDup TILE_CACHE_CONFIG.zoomLevels /\ List.NoDup getHuelvaTiles.
Proof.
  assert (Hz : List.NoDup TILE_CACHE_CONFIG.zoomLevels).
  { unfold TILE_CACHE_CONFIG.zoomLevels.
    repeat (constructor; [simpl; intuition lia|]). constructor. }
  split; [exact Hz|].
  apply (getTilesForBounds_NoDup TILE_CACHE_CONFIG.huelvaBounds
           TILE_CACHE_CONFIG.zoomLevels Hz).
Defined.

(** X13. The size of the tile set is the sum, over the zoom levels, of
    columns times rows, a range whose end is below its start counting for
    nothing; with no zoom level the set is empty. *)
Theorem getTilesForBounds_length (b : Bounds) (zoomLevels : list Z) :
  length (getTilesForBounds b zoomLevels)
  = list_sum
      (map (fun z =>
              let topLeft := latLngToTile (north b) (west b) z in
              let bottomRight := latLngToTile (south b) (east b) z in
              (Z.to_nat (XY.x bottomRight + 1 - XY.x topLeft)
               * Z.to_nat (XY.y bottomRight + 1 - XY.y topLeft))%nat)
           zoomLevels)
  /\ getTilesForBounds b [] = [].
Proof.
  split; [|reflexivity].
  rewrite getTilesForBounds_flat_map, List.length_flat_map. f_equal.
  apply map_ext. intros z. cbn zeta. unfold tile_grid.
  rewrite List.length_flat_map.
  generalize (XY.x (latLngToTile (north b) (west b) z))
             (XY.x (latLngToTile (south b) (east b) z))
             (XY.y (latLngToTile (north b) (west b) z))
             (XY.y (latLngToTile (south b) (east b) z)).
  intros x0 x1 y0 y1. rewrite <- (length_zrange x0 x1), <- (length_zrange y0 y1).
  rewrite (map_ext _ (fun _ => length (zrange y0 y1)))
    by (intros x; apply List.length_map).
  induction (zrange x0 x1) as [|x l IH]; simpl in *; lia.
Qed.

End TileSetMore.

(** ** More on the bulk preloader *)

Section PreloaderMore.

Import TilePreloader.

Variable env : Env.

Lemma preloadTile_exact (tile : Tile.t) (w : World) :
  preloadTile env tile w
  = (Resolved (attempt_succeeds env tile (cache w)),
     after_attempt env (attempt_succeeds env tile (cache w))
       (attempt_cache env tile (cache w))
       (attempt_fetches env tile (cache w) (fetches w)) w).
Proof.
  destruct tile as [z x y].
  unfold attempt_succeeds, attempt_cache, attempt_fetches, preloadTile, bind, try_catch,
    on_cache, zoom_in, fetch, incr_loaded, incr_failed, with_progress, with_preloader,
    modify, ret, throw.
  pose proof (getTile_settles (cacheEnv env) z x y (cache w)) as Hget.
  destruct (TileCache.getTile (cacheEnv env) z x y (cache w)) as [[[blob|]|e|] c1];
    cbn -[TileCache.saveTile updateProgress getTileUrl];
    [ rewrite updateProgress_run; reflexivity | | | contradiction ].
  all: destruct (network env (getTileUrl z x y)) as [|[|] [body|]];
    cbn -[TileCache.saveTile updateProgress getTileUrl];
    try (rewrite updateProgress_run; reflexivity).
  all: pose proof (saveTile_settles (cacheEnv env) z x y body c1) as Hsave;
    destruct (TileCache.saveTile (cacheEnv env) z x y body c1) as [[[]|e'|] c2];
    cbn -[updateProgress getTileUrl];
    [ rewrite updateProgress_run; reflexivity
    | rewrite updateProgress_run; reflexivity
    | contradiction ].
Qed.

(** The page after the attempts on [order], one after the other. *)
Lemma Promise_all_exact (order : list Tile.t) :
  forall w, exists results w',
    Promise_all (map (preloadTile env) order) w = (Resolved results, w') /\
    cache w' = attempts_cache env order (cache w) /\
    fetches w' = attempts_fetches env order (cache w) (fetches w) /\
    tiles (preloader w') = tiles (preloader w) /\
    isPreloading (preloader w') = isPreloading (preloader w) /\
    total (progress (preloader w')) = total (progress (preloader w)) /\
    failed (progress (preloader w'))
    = failed (progress (preloader w)) + attempts_failed env order (cache w) /\
    loaded (progress (preloader w')) + failed (progress (preloader w'))
    = loaded (progress (preloader w)) + failed (progress (preloader w))
      + Z.of_nat (length order).
Proof.
  induction order as [|tile rest IH]; intros w.
  - exists [], w. cbn. repeat split; lia.
  - destruct (IH (after_attempt env (attempt_succeeds env tile (cache w))
                    (attempt_cache env tile (cache w))
                    (attempt_fetches env tile (cache w) (fetches w)) w))
      as (results & w' & Hall & Hc & Hf & Ht & Hp & Htot & Hfail & Hsum).
    exists (attempt_succeeds env tile (cache w) :: results), w'.
    cbn [map Promise_all]. rewrite preloadTile_exact, Hall.
    cbn [attempts_cache attempts_fetches attempts_failed length].
    unfold after_attempt, after_update in Hc, Hf, Ht, Hp, Htot, Hfail, Hsum.
    cbn [cache fetches preloader tiles isPreloading progress recomputed total loaded failed]
      in Hc, Hf, Ht, Hp, Htot, Hfail, Hsum.
    split; [reflexivity|]. split; [exact Hc|]. split; [exact Hf|].
    split; [exact Ht|]. split; [exact Hp|].
    destruct (attempt_succeeds env tile (cache w));
      cbn [count_attempt total loaded failed] in Htot, Hfail, Hsum;
      (split; [exact Htot|]); split; lia.
Qed.

Lemma attempts_cache_app (l1 l2 : list Tile.t) :
  forall c, attempts_cache env (l1 ++ l2) c
            = attempts_cache env l2 (attempts_cache env l1 c).
Proof. induction l1 as [|t l1 IH]; intros c; cbn; [reflexivity | apply IH]. Qed.

Lemma attempts_fetches_app (l1 l2 : list Tile.t) :
  forall c log,
    attempts_fetches env (l1 ++ l2) c log
    = attempts_fetches env l2 (attempts_cache env l1 c) (attempts_fetches env l1 c log).
Proof. induction l1 as [|t l1 IH]; intros c log; cbn; [reflexivity | apply IH]. Qed.

Lemma attempts_failed_app (l1 l2 : list Tile.t) :
  forall c,
    attempts_failed env (l1 ++ l2) c
    = attempts_failed env l1 c + attempts_failed env l2 (attempts_cache env l1 c).
Proof.
  induction l1 as [|t l1 IH]; intros c; cbn; [reflexivity|]. rewrite IH. lia.
Qed.

Lemma processed_app (l1 l2 : list Tile.t) (w w1 w2 : World) :
  processed env l1 w w1 -> processed env l2 w1 w2 -> processed env (l1 ++ l2) w w2.
Proof.
  intros (Hc1 & Hf1 & Ht1 & Hp1 & Htot1 & Hfail1 & Hsum1)
         (Hc2 & Hf2 & Ht2 & Hp2 & Htot2 & Hfail2 & Hsum2).
  unfold processed.
  rewrite attempts_cache_app, attempts_fetches_app, attempts_failed_app, length_app.
  split; [now rewrite Hc2, Hc1|]. split; [now rewrite Hf2, Hc1, Hf1|].
  split; [congruence|]. split; [congruence|]. split; [congruence|].
  split; [rewrite Hfail2, Hfail1, Hc1; lia|]. rewrite Hsum2, Hsum1. lia.
Qed.

Lemma processBatch_exact (concurrency : Z) (fuel : nat) :
  forall queue w, exists r w',
    processBatch fuel env concurrency queue w = (r, w') /\
    (r = Resolved tt \/ r = Pending) /\
    processed env (attempt_order fuel env concurrency queue) w w' /\
    (1 <= concurrency -> (length queue < fuel)%nat -> r = Resolved tt) /\
    ((forall batch, Permutation (completionOrder env batch) batch) ->
     (forall t, In t (attempt_order fuel env concurrency queue) -> In t queue) /\
     (r = Resolved tt -> Permutation (attempt_order fuel env concurrency queue) queue)).
Proof.
  induction fuel as [|fuel IH]; intros queue w.
  - exists Pending, w. cbn [processBatch attempt_order].
    split; [reflexivity|]. split; [now right|].
    split; [unfold processed; cbn; repeat split; lia|].
    split; [lia|]. intros _. split; [intros t []|discriminate].
  - cbn [processBatch attempt_order].
    pose proof (take_batch_split concurrency queue 0 []) as Hsplit.
    assert (Hshrink : 1 <= concurrency -> forall t r, queue = t :: r ->
              (length (snd (take_batch 0 concurrency queue [])) <= length r)%nat).
    { intros Hc t r ->. apply take_batch_progress. lia. }
    destruct (take_batch 0 concurrency queue []) as [batch rest].
    cbn [fst snd app] in Hsplit, Hshrink.
    destruct (Promise_all_exact (completionOrder env batch) w)
      as (res1 & w1 & Hall & Hproc1).
    assert (Hlen : length queue = (length batch + length rest)%nat)
      by (rewrite <- Hsplit; apply length_app).
    unfold bind. rewrite Hall.
    destruct rest as [|t rest'].
    + exists (Resolved tt), w1. unfold ret. rewrite app_nil_r in *.
      split; [reflexivity|]. split; [now left|]. split; [exact Hproc1|].
      split; [reflexivity|]. intros Hperm. subst queue. split.
      * intros t Ht. eapply Permutation_in; [apply Hperm | exact Ht].
      * intros _. apply Hperm.
    + destruct (IH (t :: rest') w1) as (r & w2 & Hrun & Hend & Hproc2 & Hfuel & Horder).
      exists r, w2. rewrite Hrun.
      split; [reflexivity|]. split; [exact Hend|].
      split; [eapply processed_app; eassumption|]. split.
      * intros Hc Hlt. apply Hfuel; [exact Hc|].
        destruct queue as [|t0 r0]; [simpl in Hlen; lia|].
        specialize (Hshrink Hc t0 r0 eq_refl). simpl in Hlt. lia.
      * intros Hperm. destruct (Horder Hperm) as [Hin Hp]. subst queue. split.
        -- intros t' Ht'. apply in_app_iff in Ht' as [Ht' | Ht'].
           ++ apply in_app_iff. left. eapply Permutation_in; [apply Hperm | exact Ht'].
           ++ apply in_app_iff. right. now apply Hin.
        -- intros Hr. apply Permutation_app; [apply Hperm | now apply Hp].
Qed.

(** The page after [preloadAll], in terms of the attempts it made. *)
Lemma preloadAll_exact (fuel : nat) (concurrency : Z) (w : World) :
  isPreloading (preloader w) = false ->
  let order := attempt_order fuel env concurrency (tiles (preloader w)) in
  exists r w',
    preloadAll fuel env concurrency w = (r, w') /\
    (r = Resolved (Some (progress (preloader w'))) \/ r = Pending) /\
    cache w' = attempts_cache env order (cache w) /\
    fetches w' = attempts_fetches env order (cache w) (fetches w) /\
    tiles (preloader w') = tiles (preloader w) /\
    total (progress (preloader w')) = Z.of_nat (length (tiles (preloader w))) /\
    failed (progress (preloader w')) = attempts_failed env order (cache w) /\
    loaded (progress (preloader w')) + failed (progress (preloader w'))
    = Z.of_nat (length order) /\
    (1 <= concurrency -> (length (tiles (preloader w)) < fuel)%nat -> r <> Pending) /\
    ((forall batch, Permutation (completionOrder env batch) batch) ->
     (forall t, In t order -> In t (tiles (preloader w))) /\
     (r <> Pending -> Permutation order (tiles (preloader w)))).
Proof.
  intros Hidle order.
  unfold preloadAll, bind at 1, get_state at 1. rewrite Hidle.
  unfold with_preloader, bind at 1, modify at 1.
  unfold bind at 1, modify at 1.
  unfold bind at 1. rewrite updateProgress_run.
  unfold bind at 1, get_state at 1.
  cbn [preloader tiles isPreloading progress cache events messages fetches].
  set (w1 := after_update env _).
  change (tiles (preloader w1)) with (tiles (preloader w)).
  destruct (processBatch_exact concurrency fuel (tiles (preloader w)) w1)
    as (r & w2 & Hrun & Hend & Hproc & Hfuel & Horder).
  fold order in Hproc, Horder.
  unfold bind. rewrite Hrun.
  destruct Hproc as (Hc & Hf & Ht & Hp & Htot & Hfail & Hsum).
  subst w1.
  cbn [after_update preloader tiles isPreloading progress cache events messages fetches
       recomputed total loaded failed] in Hc, Hf, Ht, Hp, Htot, Hfail, Hsum.
  destruct Hend as [-> | ->].
  - eexists _, _. unfold modify, get_state, ret.
    cbn [preloader tiles isPreloading progress cache events messages fetches].
    split; [reflexivity|].
    cbn [preloader tiles isPreloading progress cache events messages fetches].
    split; [now left|]. split; [exact Hc|]. split; [exact Hf|]. split; [exact Ht|].
    split; [exact Htot|]. split; [lia|]. split; [lia|]. split; [discriminate|].
    intros Hperm. destruct (Horder Hperm) as [Hin Hpm]. split; [exact Hin | auto].
  - exists Pending, w2.
    split; [reflexivity|]. split; [now right|]. split; [exact Hc|]. split; [exact Hf|].
    split; [exact Ht|]. split; [exact Htot|]. split; [lia|]. split; [lia|].
    split; [intros Hcc Hn; specialize (Hfuel Hcc Hn); discriminate|].
    intros Hperm. destruct (Horder Hperm) as [Hin Hpm]. split; [exact Hin | congruence].
Qed.

(** *** What the attempts do to the cache *)

Lemma getTile_resolved (cenv : TileCache.Env) (c c1 : TileCache.t) (z x y : Z)
  (o : option Blob) :
  TileCache.getTile cenv z x y c = (Resolved o, c1) ->
  exists stores objs, holds c1 stores objs /\ objs !! TileCache.getKey z x y = o.
Proof.
  assert (Hopen : forall c0, TileCache.db c0 = true ->
            TileCache.getTile cenv z x y c0 = (Resolved o, c1) ->
            exists stores objs, holds c1 stores objs /\ objs !! TileCache.getKey z x y = o).
  { intros c0 Hdb Hget.
    destruct (open_store_cases c0 Hdb) as [(stores & objs & Hs) | Hmiss].
    - destruct (TileCache.request_fails cenv (TileCache.ReqGet (TileCache.getKey z x y)))
        eqn:Hreq.
      + rewrite (getTile_open_rejected cenv c0 stores objs z x y Hs Hreq) in Hget.
        discriminate.
      + rewrite (getTile_open cenv c0 stores objs z x y Hs Hreq) in Hget.
        inversion Hget; subst. eauto.
    - rewrite getTile_missing in Hget by assumption. discriminate. }
  intros Hget. destruct (TileCache.db c) eqn:Hdb; [now apply (Hopen c)|].
  pose proof Hget as Hget'. unfold TileCache.getTile in Hget'.
  rewrite lazy_cases, Hdb in Hget'.
  destruct (TileCache.open_ok cenv); [|discriminate].
  apply (Hopen (opened c)); [reflexivity|].
  unfold TileCache.getTile. rewrite lazy_cases, opened_db. exact Hget'.
Qed.

Lemma getTile_on_held (cenv : TileCache.Env) (c : TileCache.t) stores objs (z x y : Z) :
  holds c stores objs -> snd (TileCache.getTile cenv z x y c) = c.
Proof.
  intros Hc.
  destruct (TileCache.request_fails cenv (TileCache.ReqGet (TileCache.getKey z x y)))
    eqn:Hreq.
  - now rewrite (getTile_open_rejected cenv c stores objs z x y Hc Hreq).
  - now rewrite (getTile_open cenv c stores objs z x y Hc Hreq).
Qed.

Lemma saveTile_keeps_stored (cenv : TileCache.Env) (c : TileCache.t) (z x y : Z)
  (blob : Blob) (t : Tile.t) :
  stored c t -> stored (snd (TileCache.saveTile cenv z x y blob c)) t.
Proof.
  intros (stores & objs & Hc & Hin).
  rewrite (saveTile_open cenv c stores objs z x y blob Hc).
  destruct (TileCache.request_fails cenv _); cbn [snd].
  - exists stores, objs. auto.
  - eexists _, _. split; [split; [reflexivity | apply lookup_insert_eq]|].
    rewrite lookup_insert. case_decide; eauto.
Qed.

Lemma attempt_keeps_stored (tile t : Tile.t) (c : TileCache.t) :
  stored c t -> stored (attempt_cache env tile c) t.
Proof.
  intros Hst. destruct tile as [z x y]. unfold attempt_cache.
  destruct Hst as (stores & objs & Hc & Hin).
  pose proof (getTile_on_held (cacheEnv env) c stores objs z x y Hc) as Hsame.
  destruct (TileCache.getTile (cacheEnv env) z x y c) as [r c1]. cbn [snd] in Hsame.
  subst c1.
  assert (Hst : stored c t) by (exists stores, objs; auto).
  destruct r as [[b|]|e|]; [exact Hst| | |];
    (destruct (network env (getTileUrl z x y)) as [|[|] [body|]]; try exact Hst;
     now apply saveTile_keeps_stored).
Qed.

Lemma attempts_keep_stored (order : list Tile.t) (t : Tile.t) :
  forall c, stored c t -> stored (attempts_cache env order c) t.
Proof.
  induction order as [|tile rest IH]; intros c Hst; cbn; [exact Hst|].
  apply IH. now apply attempt_keeps_stored.
Qed.

Lemma successful_attempt_stores (tile : Tile.t) (c : TileCache.t) :
  attempt_succeeds env tile c = true -> stored (attempt_cache env tile c) tile.
Proof.
  destruct tile as [z x y]. unfold attempt_succeeds, attempt_cache, stored.
  cbn [Tile.z Tile.x Tile.y].
  destruct (TileCache.getTile (cacheEnv env) z x y c) as [r c1] eqn:Hget.
  assert (Hfetch :
    match network env (getTileUrl z x y) with
    | Response true (Some blob) =>
        match TileCache.saveTile (cacheEnv env) z x y blob c1 with
        | (Resolved _, _) => true
        | _ => false
        end
    | _ => false
    end = true ->
    exists stores objs,
      holds match network env (getTileUrl z x y) with
            | Response true (Some blob) =>
                snd (TileCache.saveTile (cacheEnv env) z x y blob c1)
            | _ => c1
            end stores objs /\
      is_Some (objs !! TileCache.getKey z x y)).
  { destruct (network env (getTileUrl z x y)) as [|[|] [body|]]; try discriminate.
    destruct (TileCache.saveTile (cacheEnv env) z x y body c1) as [[[]|e|] c2] eqn:Hsave;
      try discriminate.
    intros _. apply saveTile_resolved in Hsave as (stores & objs & Hs).
    eexists _, _. split; [exact Hs|]. rewrite lookup_insert_eq. eauto. }
  destruct r as [[b|]|e|]; try exact Hfetch.
  intros _. apply getTile_resolved in Hget as (stores & objs & Hs & Hin).
  exists stores, objs. split; [exact Hs|]. rewrite Hin. eauto.
Qed.

Lemma attempts_failed_nonneg (order : list Tile.t) :
  forall c, 0 <= attempts_failed env order c.
Proof.
  induction order as [|tile rest IH]; intros c; cbn; [lia|].
  specialize (IH (attempt_cache env tile c)).
  destruct (attempt_succeeds env tile c); lia.
Qed.

Lemma clean_attempts_store (order : list Tile.t) :
  forall c,
    attempts_failed env order c = 0 ->
    forall t, In t order -> stored (attempts_cache env order c) t.
Proof.
  induction order as [|tile rest IH]; intros c Hzero t Hin; [destruct Hin|].
  cbn in Hzero |- *.
  pose proof (attempts_failed_nonneg rest (attempt_cache env tile c)) as Hnn.
  destruct (attempt_succeeds env tile c) eqn:Hok; [|lia].
  destruct Hin as [<- | Hin].
  - apply attempts_keep_stored. now apply successful_attempt_stores.
  - apply IH; [lia | exact Hin].
Qed.

Lemma hasTile_on_stored (c : TileCache.t) (t : Tile.t) :
  stored c t ->
  TileCache.request_fails (cacheEnv env)
    (TileCache.ReqGet (TileCache.getKey (Tile.z t) (Tile.x t) (Tile.y t))) = false ->
  TileCache.hasTile (cacheEnv env) (Tile.z t) (Tile.x t) (Tile.y t) c = (Resolved true, c).
Proof.
  intros (stores & objs & Hc & [b Hb]) Hreq. unfold TileCache.hasTile, bind.
  rewrite (getTile_open (cacheEnv env) c stores objs _ _ _ Hc Hreq), Hb. reflexivity.
Qed.

Lemma all_stored_all_reported (l : list Tile.t) (c : TileCache.t) :
  (forall t, In t l ->
     stored c t /\
     TileCache.request_fails (cacheEnv env)
       (TileCache.ReqGet (TileCache.getKey (Tile.z t) (Tile.x t) (Tile.y t))) = false) ->
  tiles_reported_cached (cacheEnv env) l c = Z.of_nat (length l).
Proof.
  induction l as [|t rest IH]; intros Hall; [reflexivity|].
  cbn [tiles_reported_cached length].
  destruct (Hall t (or_introl eq_refl)) as [Hst Hreq].
  rewrite (hasTile_on_stored c t Hst Hreq). rewrite IH; [lia|].
  intros t' Ht'. apply Hall. now right.
Qed.

(** X14. A run that ends with [failed = 0] leaves every tile of the list in
    the store; when the reads go through, [checkCachedCount] then answers
    [cached = total]. *)
Theorem clean_run_caches_every_tile (fuel : nat) (concurrency : Z) (w w' : World)
  (final : PreloadProgress) :
  (forall batch, Permutation (completionOrder env batch) batch) ->
  isPreloading (preloader w) = false ->
  preloadAll fuel env concurrency w = (Resolved (Some final), w') ->
  failed final = 0 ->
  (forall t, In t (tiles (preloader w)) -> stored (cache w') t) /\
  ((forall t, In t (tiles (preloader w)) ->
      TileCache.request_fails (cacheEnv env)
        (TileCache.ReqGet (TileCache.getKey (Tile.z t) (Tile.x t) (Tile.y t))) = false) ->
   exists count w'',
     checkCachedCount env w' = (Resolved count, w'') /\
     cc_cached count = Z.of_nat (length (tiles (preloader w))) /\
     cc_total count = Z.of_nat (length (tiles (preloader w)))).
Proof.
  intros Hperm Hidle Hrun Hclean.
  destruct (preloadAll_exact fuel concurrency w Hidle)
    as (r & w0 & Hrun0 & Hend & Hc & _ & Ht & _ & Hfail & _ & _ & Horder).
  rewrite Hrun in Hrun0. inversion Hrun0; subst r w0. clear Hrun0.
  destruct Hend as [Hr | Hr]; [|discriminate]. inversion Hr; subst final.
  destruct (Horder Hperm) as [_ Hpm]. specialize (Hpm ltac:(discriminate)).
  assert (Hall : forall t, In t (tiles (preloader w)) -> stored (cache w') t).
  { intros t Hin. rewrite Hc. apply clean_attempts_store; [lia|].
    eapply Permutation_in; [symmetry; exact Hpm | exact Hin]. }
  split; [exact Hall|].
  intros Hreads.
  destruct (check_loop env (tiles (preloader w')) (ret 0) w' w' 0 eq_refl)
    as (c' & Hloop & _).
  eexists _, _. split.
  - unfold checkCachedCount, bind at 1, get_state at 1.
    unfold bind at 1. fold (check_tile env). rewrite Hloop. reflexivity.
  - cbn [cc_cached cc_total preloader tiles]. rewrite Ht. split; [|reflexivity].
    rewrite all_stored_all_reported; [lia|].
    intros t Hin. split; [now apply Hall | now apply Hreads].
Qed.

Lemma attempt_on_stored (tile : Tile.t) (c : TileCache.t) (log : list string) :
  stored c tile ->
  TileCache.request_fails (cacheEnv env)
    (TileCache.ReqGet (TileCache.getKey (Tile.z tile) (Tile.x tile) (Tile.y tile))) = false ->
  attempt_succeeds env tile c = true /\
  attempt_cache env tile c = c /\
  attempt_fetches env tile c log = log.
Proof.
  intros (stores & objs & Hc & [b Hb]) Hreq. destruct tile as [z x y].
  cbn [Tile.z Tile.x Tile.y] in Hb, Hreq.
  unfold attempt_succeeds, attempt_cache, attempt_fetches.
  rewrite (getTile_open (cacheEnv env) c stores objs z x y Hc Hreq), Hb. auto.
Qed.

Lemma attempts_on_stored (order : list Tile.t) (c : TileCache.t) :
  (forall t, In t order ->
     stored c t /\
     TileCache.request_fails (cacheEnv env)
       (TileCache.ReqGet (TileCache.getKey (Tile.z t) (Tile.x t) (Tile.y t))) = false) ->
  forall log,
    attempts_cache env order c = c /\
    attempts_fetches env order c log = log /\
    attempts_failed env order c = 0.
Proof.
  induction order as [|tile rest IH]; intros Hall log; [cbn; auto|].
  destruct (Hall tile (or_introl eq_refl)) as [Hst Hreq].
  destruct (attempt_on_stored tile c log Hst Hreq) as (Hok & Hcache & Hlog).
  cbn. rewrite Hok, Hcache, Hlog. apply IH.
  intros t Ht. apply Hall. now right.
Qed.

(** X15. A run over tiles that are all in the store fetches nothing: with
    the reads going through, it resolves with [loaded = total] and
    [failed = 0], and leaves the fetch log and the cache as they were. *)
Theorem cached_tiles_are_not_fetched (fuel : nat) (concurrency : Z) (w : World) :
  (forall batch, Permutation (completionOrder env batch) batch) ->
  isPreloading (preloader w) = false ->
  1 <= concurrency ->
  (length (tiles (preloader w)) < fuel)%nat ->
  (forall t, In t (tiles (preloader w)) ->
     stored (cache w) t /\
     TileCache.request_fails (cacheEnv env)
       (TileCache.ReqGet (TileCache.getKey (Tile.z t) (Tile.x t) (Tile.y t))) = false) ->
  exists final w',
    preloadAll fuel env concurrency w = (Resolved (Some final), w') /\
    loaded final = Z.of_nat (length (tiles (preloader w))) /\
    failed final = 0 /\
    fetches w' = fetches w /\
    cache w' = cache w.
Proof.
  intros Hperm Hidle Hc Hfuel Hall.
  destruct (preloadAll_exact fuel concurrency w Hidle)
    as (r & w' & Hrun & Hend & Hcache & Hlog & _ & _ & Hfail & Hsum & Hlive & Horder).
  specialize (Hlive Hc Hfuel). destruct Hend as [-> | ->]; [|contradiction].
  destruct (Horder Hperm) as [Hin Hpm]. specialize (Hpm Hlive).
  destruct (attempts_on_stored
              (attempt_order fuel env concurrency (tiles (preloader w))) (cache w)
              (fun t Ht => Hall t (Hin t Ht)) (fetches w)) as (Hc0 & Hl0 & Hf0).
  exists (progress (preloader w')), w'.
  rewrite (Permutation_length Hpm) in Hsum.
  split; [exact Hrun|]. split; [lia|]. split; [lia|].
  split; [now rewrite Hlog, Hl0 | now rewrite Hcache, Hc0].
Qed.

Lemma attempt_without_storage (tile : Tile.t) (c : TileCache.t) (log : list string) :
  TileCache.open_ok (cacheEnv env) = false ->
  TileCache.db c = false ->
  attempt_succeeds env tile c = false /\
  attempt_cache env tile c = c /\
  attempt_fetches env tile c log
  = push (getTileUrl (Tile.z tile) (Tile.x tile) (Tile.y tile)) log.
Proof.
  intros Hopen Hdb. destruct tile as [z x y]. cbn [Tile.z Tile.x Tile.y].
  unfold attempt_succeeds, attempt_cache, attempt_fetches.
  assert (Hget : TileCache.getTile (cacheEnv env) z x y c = (Rejected OpenFailed, c)).
  { unfold TileCache.getTile. now rewrite lazy_cases, Hdb, Hopen. }
  assert (Hsave : forall blob,
            TileCache.saveTile (cacheEnv env) z x y blob c = (Rejected OpenFailed, c)).
  { intros blob. unfold TileCache.saveTile. now rewrite lazy_cases, Hdb, Hopen. }
  rewrite Hget.
  destruct (network env (getTileUrl z x y)) as [|[|] [body|]]; rewrite ?Hsave; auto.
Qed.

Lemma attempts_without_storage (order : list Tile.t) (c : TileCache.t) :
  TileCache.open_ok (cacheEnv env) = false ->
  TileCache.db c = false ->
  forall log,
    attempts_cache env order c = c /\
    attempts_fetches env order c log
    = log ++ map (fun t => getTileUrl (Tile.z t) (Tile.x t) (Tile.y t)) order /\
    attempts_failed env order c = Z.of_nat (length order).
Proof.
  intros Hopen Hdb. induction order as [|tile rest IH]; intros log.
  - cbn. now rewrite app_nil_r.
  - destruct (attempt_without_storage tile c log Hopen Hdb) as (Hok & Hcache & Hlog).
    cbn [attempts_cache attempts_fetches attempts_failed map length].
    rewrite Hok, Hcache, Hlog.
    destruct (IH (push (getTileUrl (Tile.z tile) (Tile.x tile) (Tile.y tile)) log))
      as (Hc & Hf & Hn).
    rewrite Hc, Hf, Hn. unfold push. rewrite <- app_assoc.
    split; [reflexivity|]. split; [reflexivity | lia].
Qed.

(** X16. When the database cannot be opened, a run still fetches every
    tile once, in the order of its attempts, and counts every tile as
    failed: it resolves with [loaded = 0] and [failed = total]. *)
Theorem unavailable_storage_fails_every_tile (fuel : nat) (concurrency : Z) (w : World) :
  (forall batch, Permutation (completionOrder env batch) batch) ->
  isPreloading (preloader w) = false ->
  1 <= concurrency ->
  (length (tiles (preloader w)) < fuel)%nat ->
  TileCache.open_ok (cacheEnv env) = false ->
  TileCache.db (cache w) = false ->
  exists final w' order,
    preloadAll fuel env concurrency w = (Resolved (Some final), w') /\
    loaded final = 0 /\
    failed final = Z.of_nat (length (tiles (preloader w))) /\
    Permutation order (tiles (preloader w)) /\
    fetches w'
    = fetches w ++ map (fun t => getTileUrl (Tile.z t) (Tile.x t) (Tile.y t)) order /\
    cache w' = cache w.
Proof.
  intros Hperm Hidle Hc Hfuel Hopen Hdb.
  destruct (preloadAll_exact fuel concurrency w Hidle)
    as (r & w' & Hrun & Hend & Hcache & Hlog & _ & _ & Hfail & Hsum & Hlive & Horder).
  specialize (Hlive Hc Hfuel). destruct Hend as [-> | ->]; [|contradiction].
  destruct (Horder Hperm) as [_ Hpm]. specialize (Hpm Hlive).
  destruct (attempts_without_storage
              (attempt_order fuel env concurrency (tiles (preloader w))) (cache w)
              Hopen Hdb (fetches w)) as (Hc0 & Hl0 & Hf0).
  exists (progress (preloader w')), w',
    (attempt_order fuel env concurrency (tiles (preloader w))).
  rewrite Hf0 in Hfail. rewrite (Permutation_length Hpm) in Hsum, Hfail.
  split; [exact Hrun|]. split; [lia|]. split; [lia|]. split; [exact Hpm|].
  split; [now rewrite Hlog, Hl0 | now rewrite Hcache, Hc0].
Qed.

Lemma length_updates (results : list bool) :
  forall pr, length (updates pr results) = length results.
Proof. induction results as [|ok rest IH]; intros pr; cbn; [reflexivity | now rewrite IH]. Qed.

Lemma progress_after_last (results : list bool) :
  forall pr d, List.last (pr :: updates pr results) d = progress_after pr results.
Proof.
  induction results as [|ok rest IH]; intros pr d; [reflexivity|].
  cbn [progress_after updates]. rewrite <- (IH _ d). reflexivity.
Qed.

(** X17. A run that resolves has emitted one update when it started, with
    both counters at 0, and one per tile, [total + 1] in all, the last of
    them being the progress it resolves with; the bridge, when there is
    one, was posted the same updates. *)
Theorem one_update_per_tile (fuel : nat) (concurrency : Z) (w w' : World)
  (final : PreloadProgress) :
  (forall batch, Permutation (completionOrder env batch) batch) ->
  isPreloading (preloader w) = false ->
  preloadAll fuel env concurrency w = (Resolved (Some final), w') ->
  exists first rest,
    events w' = events w ++ first :: rest /\
    messages w' = messages w ++ (if hasBridge env then first :: rest else []) /\
    length rest = length (tiles (preloader w)) /\
    total first = Z.of_nat (length (tiles (preloader w))) /\
    loaded first = 0 /\ failed first = 0 /\
    forall d, List.last (first :: rest) d = final.
Proof.
  intros Hperm Hidle Hrun.
  destruct (preloadAll_run env fuel concurrency w Hidle)
    as (r & results & w0 & Hrun0 & _ & Hpr & He & Hm & Hend & _ & Hcount).
  rewrite Hrun in Hrun0. inversion Hrun0; subst r w0. clear Hrun0.
  destruct (Hcount Hperm) as [_ Hlen]. specialize (Hlen ltac:(discriminate)).
  destruct Hend as [[Hr _] | [Hr _]]; [|discriminate]. inversion Hr; subst final.
  eexists _, _. split; [exact He|]. split; [exact Hm|].
  split; [now rewrite length_updates, Hlen|].
  split; [reflexivity|]. split; [reflexivity|]. split; [reflexivity|].
  intros d. apply progress_after_last.
Qed.

Lemma round_percent_full (n : Z) : 0 < n -> round_percent n n = 100.
Proof.
  intros Hn. rewrite round_percent_div by exact Hn.
  symmetry. apply (Z.div_unique_pos _ _ 100 n); lia.
Qed.

(** X18. Whatever the number of tiles that failed, a run over a non-empty
    list that resolves does so with [percentage = 100] and [isComplete]
    true; so the host handler that receives this progress stores the
    completion flag as soon as AsyncStorage accepts the write. *)
Theorem finished_run_sets_the_flag (fuel : nat) (concurrency : Z) (w w' : World)
  (final : PreloadProgress) (host : useTilePreload.Env) (device : useTilePreload.World) :
  (forall batch, Permutation (completionOrder env batch) batch) ->
  isPreloading (preloader w) = false ->
  tiles (preloader w) <> [] ->
  preloadAll fuel env concurrency w = (Resolved (Some final), w') ->
  percentage final = Fin 100 /\
  isComplete final = true /\
  (useTilePreload.call_fails host
     (useTilePreload.SetItem useTilePreload.PRELOAD_STATUS_KEY "true") = false ->
   useTilePreload.items (snd (useTilePreload.handleProgress host final device))
     !! useTilePreload.PRELOAD_STATUS_KEY = Some "true"%string /\
   useTilePreload.isPreloaded
     (useTilePreload.hook (snd (useTilePreload.handleProgress host final device))) = true).
Proof.
  intros Hperm Hidle Htiles Hrun.
  destruct (preloadAll_run env fuel concurrency w Hidle)
    as (r & results & w0 & Hrun0 & _ & Hpr & _ & _ & Hend & _ & Hcount).
  rewrite Hrun in Hrun0. inversion Hrun0; subst r w0. clear Hrun0.
  destruct (Hcount Hperm) as [_ Hlen]. specialize (Hlen ltac:(discriminate)).
  destruct Hend as [[Hr _] | [Hr _]]; [|discriminate]. inversion Hr; subst final.
  set (n := length (tiles (preloader w))) in *.
  assert (Hn : 0 < Z.of_nat n).
  { subst n. destruct (tiles (preloader w)); [contradiction | simpl; lia]. }
  destruct (progress_after_counts results (recomputed (fresh_progress n)))
    as (Ht & Hl & Hf).
  pose proof (count_of_total results) as Hsum.
  assert (Hrec : recomputed (progress_after (recomputed (fresh_progress n)) results)
                 = progress_after (recomputed (fresh_progress n)) results).
  { eapply run_progress_facts; [|apply progress_after_in]. lia. }
  destruct (recomputed_fields _ Hrec) as [Hpct Hdone].
  assert (Hatt : attempted (progress_after (recomputed (fresh_progress n)) results)
                 = Z.of_nat n).
  { unfold attempted. rewrite Hl, Hf. cbn. lia. }
  rewrite Hatt, Ht in Hpct, Hdone. cbn [recomputed fresh_progress total] in Hpct, Hdone.
  rewrite percentage_as_specified, round_percent_full in Hpct by exact Hn.
  assert (Hcomplete : isComplete (progress_after (recomputed (fresh_progress n)) results)
                      = true).
  { rewrite Hdone. apply Z.geb_le. lia. }
  split; [exact Hpct|]. split; [exact Hcomplete|].
  intros Haccept. rewrite handleProgress_run, Hcomplete, Hpct, Haccept. cbn.
  split; [apply lookup_insert_eq | reflexivity].
Qed.

Lemma take_batch_firstn (concurrency : Z) (queue : list Tile.t) :
  forall i batch,
    take_batch i concurrency queue batch
    = (batch ++ firstn (Z.to_nat (concurrency - i)) queue,
       skipn (Z.to_nat (concurrency - i)) queue).
Proof.
  induction queue as [|tile rest IH]; intros i batch.
  - cbn [take_batch]. now rewrite firstn_nil, skipn_nil, app_nil_r.
  - cbn [take_batch]. destruct (Z.ltb_spec i concurrency) as [Hlt | Hge].
    + rewrite IH. replace (Z.to_nat (concurrency - i))
        with (S (Z.to_nat (concurrency - (i + 1)))) by lia.
      cbn [firstn skipn]. unfold push. now rewrite <- app_assoc.
    + replace (Z.to_nat (concurrency - i)) with O by lia.
      cbn [firstn skipn]. now rewrite app_nil_r.
Qed.

(** X19. A batch is the first [concurrency] tiles of the queue, or the
    whole queue when it is shorter, and the queue goes on with the rest:
    no batch holds more than [concurrency] attempts. *)
Theorem batch_is_bounded (concurrency : Z) (queue : list Tile.t) :
  take_batch 0 concurrency queue []
  = (firstn (Z.to_nat concurrency) queue, skipn (Z.to_nat concurrency) queue) /\
  (length (fst (take_batch 0 concurrency queue [])) <= Z.to_nat concurrency)%nat /\
  fst (take_batch 0 concurrency queue []) ++ snd (take_batch 0 concurrency queue [])
  = queue.
Proof.
  rewrite take_batch_firstn, Z.sub_0_r. cbn [app fst snd].
  split; [reflexivity|]. split; [apply firstn_le_length | apply firstn_skipn].
Qed.

End PreloaderMore.

(** ** The caching tile layer *)

Section TileLayer.

Import CachedTileLayer.

Variable env : Env.

Ltac layer_unfold :=
  unfold createTile, _loadTile, image_loads, run_onload, run_onerror, fetch,
    createObjectURL, revokeObjectURL, call_leaflet, with_tile, on_cache, zoom_in,
    bind, try_catch, modify, get_state, ret, throw, push.

Ltac layer_simpl :=
  cbn [cache fetches tile signals urls nextUrl src onload onerror fst snd negb].

Lemma fetchAndCacheTile_never_rejects (fuel : nat) (coords : Tile.t) (w : World)
  (e : Error) :
  fst (_fetchAndCacheTile fuel env coords w) <> Rejected e.
Proof.
  destruct fuel as [|fuel]; cbn [_fetchAndCacheTile]; [discriminate|].
  unfold try_catch at 1.
  match goal with |- context [match ?m with _ => _ end] => destruct m as [[u|e'|] w'] end;
    cbn; discriminate.
Qed.

Lemma fetch_round (fuel : nat) (coords : Tile.t) (w : World) (blob : Blob) :
  network env (getTileUrl env coords) = TilePreloader.Response true (Some blob) ->
  _fetchAndCacheTile (S fuel) env coords w
  = let w1 := showing env coords blob w in
    if decodes env blob then
      (Resolved tt,
       mkWorld (cache w1) (fetches w1) (tile w1) (signals w1 ++ [TileOnLoad false])
         (delete (nextUrl w) (urls w1)) (nextUrl w1))
    else
      match onerror (tile w) with
      | LeafletOnError =>
          (Resolved tt,
           mkWorld (cache w1) (fetches w1) (tile w1) (signals w1 ++ [TileOnError true])
             (urls w1) (nextUrl w1))
      | RevokeThenRefetch stale =>
          _fetchAndCacheTile fuel env coords
            (mkWorld (cache w1) (fetches w1) (tile w1) (signals w1)
               (delete stale (urls w1)) (nextUrl w1))
      end.
Proof.
  intros Hnet. cbn [_fetchAndCacheTile]. unfold showing.
  pose proof (saveTile_settles (cacheEnv env) (Tile.z coords) (Tile.x coords)
                (Tile.y coords) blob (cache w)) as Hsettle.
  layer_unfold. layer_simpl. rewrite Hnet. layer_simpl.
  destruct (TileCache.saveTile (cacheEnv env) (Tile.z coords) (Tile.x coords)
              (Tile.y coords) blob (cache w)) as [[[]|e|] c'];
    [| |contradiction]; layer_simpl.
  all: destruct (decodes env blob); layer_simpl; [reflexivity|].
  all: destruct (onerror (tile w)) as [|stale]; layer_simpl; [reflexivity|].
  all: match goal with
       | |- context [_fetchAndCacheTile ?f _ ?c ?w1] =>
           pose proof (fetchAndCacheTile_never_rejects f c w1) as Hnr;
           destruct (_fetchAndCacheTile f env c w1) as [[u|e'|] w2];
           [reflexivity | exfalso; apply (Hnr e'); reflexivity | reflexivity]
       end.
Qed.

Lemma fetch_fails (fuel : nat) (coords : Tile.t) (w : World) :
  match network env (getTileUrl env coords) with
  | TilePreloader.Response true (Some _) => False
  | _ => True
  end ->
  _fetchAndCacheTile (S fuel) env coords w
  = (Resolved tt,
     mkWorld (cache w) (fetches w ++ [getTileUrl env coords]) (tile w)
       (signals w ++ [TileOnError false]) (urls w) (nextUrl w)).
Proof.
  intros Hnet. cbn [_fetchAndCacheTile]. layer_unfold. layer_simpl.
  destruct (network env (getTileUrl env coords)) as [|[|] [body|]];
    layer_simpl; try reflexivity. contradiction.
Qed.

Lemma createTile_hit (fuel : nat) (coords : Tile.t) (w : World)
  stores objs (blob : Blob) :
  holds (cache w) stores objs ->
  objs !! TileCache.getKey (Tile.z coords) (Tile.x coords) (Tile.y coords) = Some blob ->
  TileCache.request_fails (cacheEnv env)
    (TileCache.ReqGet (TileCache.getKey (Tile.z coords) (Tile.x coords) (Tile.y coords)))
  = false ->
  decodes env blob = true ->
  exists img w',
    createTile fuel env coords w = (Resolved img, w') /\
    fetches w' = fetches w /\
    cache w' = cache w /\
    signals w' = signals w ++ [TileOnLoad false] /\
    urls w' = delete (nextUrl w) (urls w) /\
    src img = Some (nextUrl w).
Proof.
  intros Hc Hblob Hreq Hdec. layer_unfold. layer_simpl.
  rewrite (getTile_open (cacheEnv env) (cache w) stores objs _ _ _ Hc Hreq), Hblob.
  layer_simpl. rewrite Hdec. layer_simpl.
  eexists _, _. split; [reflexivity|]. layer_simpl.
  split; [reflexivity|]. split; [reflexivity|]. split; [reflexivity|].
  split; [apply delete_insert_eq | reflexivity].
Qed.

(** X20. A tile that is in the store and decodes is shown from the store:
    nothing is fetched, the store is not written, Leaflet is told once
    that the tile has loaded, and the object URL made for it is revoked. *)
Theorem cached_tile_is_served_locally (fuel : nat) (coords : Tile.t) (w : World)
  stores objs (blob : Blob) :
  holds (cache w) stores objs ->
  objs !! TileCache.getKey (Tile.z coords) (Tile.x coords) (Tile.y coords) = Some blob ->
  TileCache.request_fails (cacheEnv env)
    (TileCache.ReqGet (TileCache.getKey (Tile.z coords) (Tile.x coords) (Tile.y coords)))
  = false ->
  decodes env blob = true ->
  exists img w',
    createTile fuel env coords w = (Resolved img, w') /\
    fetches w' = fetches w /\
    cache w' = cache w /\
    signals w' = signals w ++ [TileOnLoad false] /\
    urls w' = delete (nextUrl w) (urls w) /\
    src img = Some (nextUrl w).
Proof. apply createTile_hit. Qed.

(** [createTile] when the store does not give the tile. *)
Lemma createTile_miss (fuel : nat) (coords : Tile.t) (w : World) :
  (forall b, fst (TileCache.getTile (cacheEnv env)
                    (Tile.z coords) (Tile.x coords) (Tile.y coords) (cache w))
             <> Resolved (Some b)) ->
  createTile fuel env coords w
  = let c1 := snd (TileCache.getTile (cacheEnv env)
                     (Tile.z coords) (Tile.x coords) (Tile.y coords) (cache w)) in
    let run := _fetchAndCacheTile fuel env coords (new_tile c1 w) in
    (match fst run with
     | Resolved _ => Resolved (tile (snd run))
     | Rejected e => Rejected e
     | Pending => Pending
     end, snd run).
Proof.
  intros Hmiss.
  pose proof (getTile_settles (cacheEnv env) (Tile.z coords) (Tile.x coords)
                (Tile.y coords) (cache w)) as Hsettle.
  unfold createTile, _loadTile, on_cache, zoom_in, with_tile, bind, try_catch, modify,
    get_state, ret, new_tile.
  layer_simpl.
  destruct (TileCache.getTile (cacheEnv env) (Tile.z coords) (Tile.x coords)
              (Tile.y coords) (cache w)) as [[[b|]|e|] c1];
    cbn [fst snd] in *; layer_simpl.
  - exfalso. now apply (Hmiss b).
  - match goal with
    | |- context [_fetchAndCacheTile ?f _ ?c ?w1] =>
        pose proof (fetchAndCacheTile_never_rejects f c w1) as Hnr;
        destruct (_fetchAndCacheTile f env c w1) as [[u|e'|] w2]; layer_simpl;
        [reflexivity | exfalso; apply (Hnr e'); reflexivity | reflexivity]
    end.
  - match goal with
    | |- context [_fetchAndCacheTile ?f _ ?c ?w1] =>
        destruct (_fetchAndCacheTile f env c w1) as [[u|e'|] w2]; reflexivity
    end.
  - contradiction.
Qed.

(** [createTile] when the store gives a blob that does not decode. *)
Lemma createTile_corrupt (fuel : nat) (coords : Tile.t) (w : World) stores objs
  (blob : Blob) :
  holds (cache w) stores objs ->
  objs !! TileCache.getKey (Tile.z coords) (Tile.x coords) (Tile.y coords) = Some blob ->
  TileCache.request_fails (cacheEnv env)
    (TileCache.ReqGet (TileCache.getKey (Tile.z coords) (Tile.x coords) (Tile.y coords)))
  = false ->
  decodes env blob = false ->
  createTile fuel env coords w
  = let run :=
      _fetchAndCacheTile fuel env coords
        (mkWorld (cache w) (fetches w)
           (mkImg (Some (nextUrl w)) (RevokeThenOnLoad (nextUrl w))
              (RevokeThenRefetch (nextUrl w)))
           (signals w) (delete (nextUrl w) (<[nextUrl w := blob]> (urls w)))
           (S (nextUrl w))) in
    (match fst run with
     | Resolved _ => Resolved (tile (snd run))
     | Rejected e => Rejected e
     | Pending => Pending
     end, snd run).
Proof.
  intros Hc Hblob Hreq Hdec. layer_unfold. layer_simpl.
  rewrite (getTile_open (cacheEnv env) (cache w) stores objs _ _ _ Hc Hreq), Hblob.
  layer_simpl. rewrite Hdec. layer_simpl.
  match goal with
  | |- context [_fetchAndCacheTile ?f _ ?c ?w1] =>
      pose proof (fetchAndCacheTile_never_rejects f c w1) as Hnr;
      destruct (_fetchAndCacheTile f env c w1) as [[u|e'|] w2]; layer_simpl;
      [reflexivity | exfalso; apply (Hnr e'); reflexivity | reflexivity]
  end.
Qed.

Lemma getTile_absent (c : TileCache.t) stores objs (coords : Tile.t) :
  holds c stores objs ->
  objs !! TileCache.getKey (Tile.z coords) (Tile.x coords) (Tile.y coords) = None ->
  (forall b, fst (TileCache.getTile (cacheEnv env)
                    (Tile.z coords) (Tile.x coords) (Tile.y coords) c)
             <> Resolved (Some b)) /\
  snd (TileCache.getTile (cacheEnv env)
         (Tile.z coords) (Tile.x coords) (Tile.y coords) c) = c.
Proof.
  intros Hc Hnone. split; [|eapply getTile_on_held; exact Hc].
  intros b.
  destruct (TileCache.request_fails (cacheEnv env)
              (TileCache.ReqGet (TileCache.getKey (Tile.z coords) (Tile.x coords)
                                   (Tile.y coords)))) eqn:Hreq.
  - rewrite (getTile_open_rejected (cacheEnv env) c stores objs _ _ _ Hc Hreq). discriminate.
  - rewrite (getTile_open (cacheEnv env) c stores objs _ _ _ Hc Hreq), Hnone. discriminate.
Qed.

(** X21. A tile that is not in the store is fetched once and shown, whether
    or not the write to the store succeeds.  When the write succeeds the
    blob is in the store, and loading the tile again fetches nothing; when
    it fails the store is as it was. *)
Theorem missing_tile_is_fetched_and_stored (fuel : nat) (coords : Tile.t) (w : World)
  stores objs (blob : Blob) :
  holds (cache w) stores objs ->
  objs !! TileCache.getKey (Tile.z coords) (Tile.x coords) (Tile.y coords) = None ->
  TileCache.request_fails (cacheEnv env)
    (TileCache.ReqGet (TileCache.getKey (Tile.z coords) (Tile.x coords) (Tile.y coords)))
  = false ->
  network env (getTileUrl env coords) = TilePreloader.Response true (Some blob) ->
  decodes env blob = true ->
  exists img w',
    createTile (S fuel) env coords w = (Resolved img, w') /\
    fetches w' = fetches w ++ [getTileUrl env coords] /\
    signals w' = signals w ++ [TileOnLoad false] /\
    urls w' = delete (nextUrl w) (urls w) /\
    (if TileCache.request_fails (cacheEnv env)
          (TileCache.ReqPut (TileCache.getKey (Tile.z coords) (Tile.x coords) (Tile.y coords)))
     then cache w' = cache w
     else
       TileCache.getTile (cacheEnv env) (Tile.z coords) (Tile.x coords) (Tile.y coords)
         (cache w') = (Resolved (Some blob), cache w') /\
       forall fuel', exists img' w'',
         createTile fuel' env coords w' = (Resolved img', w'') /\
         fetches w'' = fetches w').
Proof.
  intros Hc Hnone Hreq Hnet Hdec.
  destruct (getTile_absent (cache w) stores objs coords Hc Hnone) as [Hmiss Hsame].
  rewrite (createTile_miss (S fuel) coords w Hmiss). cbn zeta. rewrite Hsame.
  rewrite (fetch_round fuel coords _ blob Hnet). cbn zeta. rewrite Hdec.
  unfold showing, new_tile. layer_simpl.
  eexists _, _. split; [reflexivity|]. layer_simpl.
  split; [reflexivity|]. split; [reflexivity|].
  split; [apply delete_insert_eq|].
  rewrite (saveTile_open (cacheEnv env) (cache w) stores objs _ _ _ blob Hc).
  destruct (TileCache.request_fails (cacheEnv env) (TileCache.ReqPut _)); cbn [snd];
    [reflexivity|].
  assert (Hheld : holds
            (TileCache.mk true
               (Some (<[TileCache.storeName :=
                        <[TileCache.getKey (Tile.z coords) (Tile.x coords) (Tile.y coords)
                          := blob]> objs]> stores)))
            (<[TileCache.storeName :=
               <[TileCache.getKey (Tile.z coords) (Tile.x coords) (Tile.y coords)
                 := blob]> objs]> stores)
            (<[TileCache.getKey (Tile.z coords) (Tile.x coords) (Tile.y coords)
               := blob]> objs)).
  { split; [reflexivity | apply lookup_insert_eq]. }
  split.
  - rewrite (getTile_open (cacheEnv env) _ _ _ _ _ _ Hheld Hreq), lookup_insert_eq.
    reflexivity.
  - intros fuel'.
    match goal with
    | |- context [createTile fuel' env coords ?w1] =>
        destruct (createTile_hit fuel' coords w1 _ _ blob Hheld
                    (lookup_insert_eq _ _ _) Hreq Hdec)
          as (img' & w'' & Hrun & Hf & _)
    end.
    exists img', w''. split; [exact Hrun | exact Hf].
Qed.

(** X22. When the store does not give the tile and the fetch fails, rejects
    or answers with a status that is not ok or a body that cannot be read,
    Leaflet is told once that the tile is in error: there is one fetch, no
    retry, no write to the store and no object URL. *)
Theorem failed_fetch_is_a_tile_error (fuel : nat) (coords : Tile.t) (w : World) :
  (forall b, fst (TileCache.getTile (cacheEnv env)
                    (Tile.z coords) (Tile.x coords) (Tile.y coords) (cache w))
             <> Resolved (Some b)) ->
  match network env (getTileUrl env coords) with
  | TilePreloader.Response true (Some _) => False
  | _ => True
  end ->
  exists img w',
    createTile (S fuel) env coords w = (Resolved img, w') /\
    fetches w' = fetches w ++ [getTileUrl env coords] /\
    signals w' = signals w ++ [TileOnError false] /\
    cache w' = snd (TileCache.getTile (cacheEnv env)
                      (Tile.z coords) (Tile.x coords) (Tile.y coords) (cache w)) /\
    urls w' = urls w /\
    src img = None.
Proof.
  intros Hmiss Hnet.
  rewrite (createTile_miss (S fuel) coords w Hmiss). cbn zeta.
  rewrite (fetch_fails fuel coords _ Hnet). unfold new_tile. layer_simpl.
  eexists _, _. split; [reflexivity|]. layer_simpl. repeat split.
Qed.

(** X23. A stored blob that does not decode is replaced: the tile is
    fetched once, the fetched blob is shown and, the write succeeding,
    takes the place of the stored one; both object URLs are revoked. *)
Theorem corrupt_cached_tile_is_refetched (fuel : nat) (coords : Tile.t) (w : World)
  stores objs (bad good : Blob) :
  holds (cache w) stores objs ->
  objs !! TileCache.getKey (Tile.z coords) (Tile.x coords) (Tile.y coords) = Some bad ->
  TileCache.request_fails (cacheEnv env)
    (TileCache.ReqGet (TileCache.getKey (Tile.z coords) (Tile.x coords) (Tile.y coords)))
  = false ->
  TileCache.request_fails (cacheEnv env)
    (TileCache.ReqPut (TileCache.getKey (Tile.z coords) (Tile.x coords) (Tile.y coords)))
  = false ->
  decodes env bad = false ->
  network env (getTileUrl env coords) = TilePreloader.Response true (Some good) ->
  decodes env good = true ->
  exists img w',
    createTile (S fuel) env coords w = (Resolved img, w') /\
    fetches w' = fetches w ++ [getTileUrl env coords] /\
    signals w' = signals w ++ [TileOnLoad false] /\
    TileCache.getTile (cacheEnv env) (Tile.z coords) (Tile.x coords) (Tile.y coords)
      (cache w') = (Resolved (Some good), cache w') /\
    urls w' !! nextUrl w = None /\
    urls w' !! S (nextUrl w) = None.
Proof.
  intros Hc Hbad Hget Hput Hdec Hnet Hgood.
  rewrite (createTile_corrupt (S fuel) coords w stores objs bad Hc Hbad Hget Hdec).
  cbn zeta. rewrite (fetch_round fuel coords _ good Hnet). cbn zeta. rewrite Hgood.
  unfold showing. layer_simpl.
  eexists _, _. split; [reflexivity|]. layer_simpl.
  split; [reflexivity|]. split; [reflexivity|].
  rewrite (saveTile_open (cacheEnv env) (cache w) stores objs _ _ _ good Hc), Hput.
  cbn [snd]. split.
  - erewrite getTile_open; [| split; [reflexivity | apply lookup_insert_eq] | exact Hget].
    now rewrite lookup_insert_eq.
  - split.
    + rewrite lookup_delete_ne by lia. rewrite lookup_insert_ne by lia.
      apply lookup_delete_eq.
    + apply lookup_delete_eq.
Qed.

(** X24. A fetched blob is written to the store before it is known to
    decode.  When a missing tile is fetched and the blob does not decode,
    Leaflet is told that the tile is in error, with the [done] callback,
    and yet the blob is in the store afterwards and its object URL stays
    alive. *)
Theorem undecodable_blob_is_stored (fuel : nat) (coords : Tile.t) (w : World)
  stores objs (bad : Blob) :
  holds (cache w) stores objs ->
  objs !! TileCache.getKey (Tile.z coords) (Tile.x coords) (Tile.y coords) = None ->
  TileCache.request_fails (cacheEnv env)
    (TileCache.ReqGet (TileCache.getKey (Tile.z coords) (Tile.x coords) (Tile.y coords)))
  = false ->
  TileCache.request_fails (cacheEnv env)
    (TileCache.ReqPut (TileCache.getKey (Tile.z coords) (Tile.x coords) (Tile.y coords)))
  = false ->
  network env (getTileUrl env coords) = TilePreloader.Response true (Some bad) ->
  decodes env bad = false ->
  exists img w',
    createTile (S fuel) env coords w = (Resolved img, w') /\
    fetches w' = fetches w ++ [getTileUrl env coords] /\
    signals w' = signals w ++ [TileOnError true] /\
    TileCache.getTile (cacheEnv env) (Tile.z coords) (Tile.x coords) (Tile.y coords)
      (cache w') = (Resolved (Some bad), cache w') /\
    urls w' !! nextUrl w = Some bad.
Proof.
  intros Hc Hnone Hget Hput Hnet Hdec.
  destruct (getTile_absent (cache w) stores objs coords Hc Hnone) as [Hmiss Hsame].
  rewrite (createTile_miss (S fuel) coords w Hmiss). cbn zeta. rewrite Hsame.
  rewrite (fetch_round fuel coords _ bad Hnet). cbn zeta. rewrite Hdec.
  unfold showing, new_tile. layer_simpl.
  eexists _, _. split; [reflexivity|]. layer_simpl.
  split; [reflexivity|]. split; [reflexivity|].
  rewrite (saveTile_open (cacheEnv env) (cache w) stores objs _ _ _ bad Hc), Hput.
  cbn [snd]. split.
  - erewrite getTile_open; [| split; [reflexivity | apply lookup_insert_eq] | exact Hget].
    now rewrite lookup_insert_eq.
  - apply lookup_insert_eq.
Qed.

Lemma refetch_loop (coords : Tile.t) (bad : Blob) :
  network env (getTileUrl env coords) = TilePreloader.Response true (Some bad) ->
  decodes env bad = false ->
  forall fuel w stale,
    onerror (tile w) = RevokeThenRefetch stale ->
    exists w',
      _fetchAndCacheTile fuel env coords w = (Pending, w') /\
      fetches w' = fetches w ++ repeat (getTileUrl env coords) fuel /\
      signals w' = signals w.
Proof.
  intros Hnet Hdec. induction fuel as [|fuel IH]; intros w stale Herr.
  - exists w. cbn. now rewrite app_nil_r.
  - rewrite (fetch_round fuel coords w bad Hnet). cbn zeta. rewrite Hdec, Herr.
    match goal with
    | |- context [_fetchAndCacheTile fuel env coords ?w1] =>
        destruct (IH w1 stale) as (w' & Hrun & Hf & Hs)
    end.
    { unfold showing. layer_simpl. exact Herr. }
    exists w'. split; [exact Hrun|]. unfold showing in Hf, Hs. cbn [fetches signals] in Hf, Hs.
    split; [rewrite Hf; cbn [repeat]; now rewrite <- app_assoc | exact Hs].
Qed.

(** X25. When the stored blob does not decode and the blob that the
    network gives does not decode either, the error handler left on the
    image by the cache-hit path fetches again at every failure: after any
    number of rounds the load has not settled, there has been one fetch
    per round, and Leaflet has been told nothing. *)
Theorem undecodable_tile_is_refetched_forever (fuel : nat) (coords : Tile.t) (w : World)
  stores objs (bad bad' : Blob) :
  holds (cache w) stores objs ->
  objs !! TileCache.getKey (Tile.z coords) (Tile.x coords) (Tile.y coords) = Some bad ->
  TileCache.request_fails (cacheEnv env)
    (TileCache.ReqGet (TileCache.getKey (Tile.z coords) (Tile.x coords) (Tile.y coords)))
  = false ->
  decodes env bad = false ->
  network env (getTileUrl env coords) = TilePreloader.Response true (Some bad') ->
  decodes env bad' = false ->
  exists w',
    createTile fuel env coords w = (Pending, w') /\
    fetches w' = fetches w ++ repeat (getTileUrl env coords) fuel /\
    signals w' = signals w.
Proof.
  intros Hc Hbad Hget Hdec Hnet Hdec'.
  rewrite (createTile_corrupt fuel coords w stores objs bad Hc Hbad Hget Hdec). cbn zeta.
  match goal with
  | |- context [_fetchAndCacheTile fuel env coords ?w1] =>
      destruct (refetch_loop coords bad' Hnet Hdec' fuel w1 (nextUrl w) eq_refl)
        as (w' & Hrun & Hf & Hs)
  end.
  rewrite Hrun. exists w'. cbn [fst snd]. auto.
Qed.

End TileLayer.
(** ** The hook across sessions *)

Section HostMore.

Import useTilePreload.

Variable env : Env.

(** X26. The completion flag outlives the session: after a complete
    progress with a percentage of 90 or more whose write was accepted, the
    hook of the next start of the app, once its mount effect has read the
    key, reports the tiles as preloaded and the load as not the first. *)
Theorem flag_survives_restart (p : PreloadProgress) (w : World) :
  isComplete p && js_ge (percentage p) 90 = true ->
  call_fails env (SetItem PRELOAD_STATUS_KEY "true") = false ->
  call_fails env (GetItem PRELOAD_STATUS_KEY) = false ->
  hook (snd (checkPreloadStatus env (restart (snd (handleProgress env p w)))))
  = mk None true false.
Proof.
  intros Hq Hset Hget.
  rewrite handleProgress_run, Hq, Hset. cbn [snd].
  rewrite checkPreloadStatus_run. unfold restart. cbn [snd items hook].
  rewrite Hget, lookup_insert_eq. reflexivity.
Qed.

(** X27. A reset outlives the session too: after a [resetPreloadStatus]
    whose removal was accepted, the next start of the app finds no flag
    and its hook stays in the state of the first render, whether or not
    the read goes through. *)
Theorem reset_survives_restart (w : World) :
  call_fails env (RemoveItem PRELOAD_STATUS_KEY) = false ->
  hook (snd (resetPreloadStatus env w)) = initial /\
  hook (snd (checkPreloadStatus env (restart (snd (resetPreloadStatus env w)))))
  = initial.
Proof.
  intros Hrem. rewrite resetPreloadStatus_run, Hrem. cbn [snd hook].
  split; [reflexivity|].
  rewrite checkPreloadStatus_run. unfold restart. cbn [snd items hook].
  rewrite lookup_delete_eq, andb_false_r. reflexivity.
Qed.

(** X28. The hook swallows the errors of AsyncStorage.  When the calls
    reject, the three functions still resolve and leave the items and the
    two flags as they were; [handleProgress] has recorded the progress all
    the same, and [resetPreloadStatus] has not cleared it. *)
Theorem storage_errors_are_swallowed (p : PreloadProgress) (w : World) :
  call_fails env (SetItem PRELOAD_STATUS_KEY "true") = true ->
  call_fails env (GetItem PRELOAD_STATUS_KEY) = true ->
  call_fails env (RemoveItem PRELOAD_STATUS_KEY) = true ->
  (fst (handleProgress env p w) = Resolved tt /\
   items (snd (handleProgress env p w)) = items w /\
   hook (snd (handleProgress env p w))
   = mk (Some p) (isPreloaded (hook w)) (isFirstLoad (hook w))) /\
  (fst (checkPreloadStatus env w) = Resolved tt /\
   items (snd (checkPreloadStatus env w)) = items w /\
   hook (snd (checkPreloadStatus env w)) = hook w) /\
  (fst (resetPreloadStatus env w) = Resolved tt /\
   items (snd (resetPreloadStatus env w)) = items w /\
   hook (snd (resetPreloadStatus env w)) = hook w).
Proof.
  intros Hset Hget Hrem.
  rewrite handleProgress_run, checkPreloadStatus_run, resetPreloadStatus_run.
  rewrite Hset, Hget, Hrem. cbn [fst snd negb andb items hook].
  repeat split; destruct (isComplete p && js_ge (percentage p) 90); reflexivity.
Qed.

End HostMore.

(** ** A run over no tile *)

Section EmptyRun.

Import TilePreloader.

Variable env : Env.

(** X29. A run over an empty tile list resolves at once, whatever the
    concurrency, with a progress that is complete and has no percentage:
    0 / 0 is not a number.  It emitted this one update, fetched nothing,
    and the host handler that receives it stores no flag. *)
Theorem empty_run_never_sets_the_flag (fuel : nat) (concurrency : Z) (w : World)
  (host : useTilePreload.Env) (device : useTilePreload.World) :
  (forall batch, Permutation (completionOrder env batch) batch) ->
  isPreloading (preloader w) = false ->
  tiles (preloader w) = [] ->
  exists w',
    preloadAll (S fuel) env concurrency w = (Resolved (Some empty_progress), w') /\
    events w' = events w ++ [empty_progress] /\
    fetches w' = fetches w /\
    useTilePreload.calls (snd (useTilePreload.handleProgress host empty_progress device))
    = useTilePreload.calls device /\
    useTilePreload.items (snd (useTilePreload.handleProgress host empty_progress device))
    = useTilePreload.items device /\
    useTilePreload.isPreloaded
      (useTilePreload.hook (snd (useTilePreload.handleProgress host empty_progress device)))
    = useTilePreload.isPreloaded (useTilePreload.hook device).
Proof.
  intros Hperm Hidle Hnil.
  assert (Hnone : completionOrder env [] = []).
  { apply Permutation_nil. symmetry. apply Hperm. }
  destruct w as [[ts busy pr] c ev ms fs]. cbn in Hidle, Hnil. subst ts busy.
  rewrite handleProgress_run. cbn [snd].
  unfold preloadAll, with_preloader, bind, modify, get_state, ret.
  cbn [preloader isPreloading tiles progress].
  rewrite updateProgress_run. unfold after_update.
  cbn [preloader isPreloading tiles progress processBatch take_batch].
  rewrite Hnone. cbn.
  eexists. split; [reflexivity|]. cbn. repeat split.
Qed.

End EmptyRun.

(** ** More scenarios *)

Section MoreScenarios.

Lemma identity_is_reordering (env : TilePreloader.Env) :
  TilePreloader.completionOrder env = (fun batch => batch) ->
  forall batch, Permutation (TilePreloader.completionOrder env batch) batch.
Proof. intros -> batch. apply Permutation_refl. Qed.

Lemma saveTile_leaves_other_tiles_witness :
  let r := fst (TileCache.saveTile Scenario.storage 1 0 1 Cases.png Scenario.unopened) in
  let s' := snd (TileCache.saveTile Scenario.storage 1 0 1 Cases.png Scenario.unopened) in
  (1, 0, 0) <> (1, 0, 1) /\
  TileCache.saveTile Scenario.storage 1 0 1 Cases.png Scenario.unopened = (r, s') /\
  fst (TileCache.getTile Scenario.storage 1 0 0 s')
  = fst (TileCache.getTile Scenario.storage 1 0 0 Scenario.unopened).
Proof.
  intros r s'.
  assert (Hne : (1, 0, 0) <> (1, 0, 1)) by discriminate.
  assert (Hsave : TileCache.saveTile Scenario.storage 1 0 1 Cases.png Scenario.unopened
                  = (r, s')) by apply surjective_pairing.
  split; [exact Hne|]. split; [exact Hsave|].
  exact (saveTile_leaves_other_tiles Scenario.storage Scenario.unopened s'
           1 0 0 1 0 1 Cases.png r Hne Hsave).
Defined.

Lemma saveTile_count_witness :
  let s' := snd (TileCache.saveTile Scenario.storage 1 0 0 Cases.png Cases.empty_store) in
  holds Cases.empty_store {[ TileCache.storeName := ∅ ]} ∅ /\
  TileCache.request_fails Scenario.storage TileCache.ReqCount = false /\
  TileCache.saveTile Scenario.storage 1 0 0 Cases.png Cases.empty_store
  = (Resolved tt, s') /\
  TileCache.getStats Scenario.storage s' = (Resolved (TileCache.mkStats 1), s').
Proof.
  intros s'.
  assert (Hc : holds Cases.empty_store {[ TileCache.storeName := ∅ ]} ∅)
    by (split; reflexivity).
  assert (Hsave : TileCache.saveTile Scenario.storage 1 0 0 Cases.png Cases.empty_store
                  = (Resolved tt, s')) by (vm_compute; reflexivity).
  split; [exact Hc|]. split; [reflexivity|]. split; [exact Hsave|].
  exact (saveTile_count Scenario.storage Cases.empty_store s' _ _ 1 0 0 Cases.png
           Hc eq_refl Hsave).
Defined.

Lemma clear_empties_witness :
  let s := Cases.store_with Cases.png in
  let s' := snd (TileCache.clear Scenario.storage s) in
  TileCache.clear Scenario.storage s = (Resolved tt, s') /\
  TileCache.getTile Scenario.storage 1 0 0 s = (Resolved (Some Cases.png), s) /\
  TileCache.getTile Scenario.storage 1 0 0 s' = (Resolved None, s') /\
  TileCache.getStats Scenario.storage s' = (Resolved (TileCache.mkStats 0), s').
Proof.
  intros s s'.
  assert (Hclear : TileCache.clear Scenario.storage s = (Resolved tt, s'))
    by (vm_compute; reflexivity).
  destruct (clear_empties Scenario.storage s s' 1 0 0 Hclear) as [Hget Hcount].
  split; [exact Hclear|]. split; [vm_compute; reflexivity|].
  split; [exact (proj1 (Hget eq_refl)) | exact (Hcount eq_refl)].
Defined.

Lemma unavailable_storage_rejects_witness :
  TileCache.open_ok Cases.no_storage = false /\
  TileCache.db Scenario.unopened = false /\
  TileCache.saveTile Cases.no_storage 1 0 0 Cases.png Scenario.unopened
  = (Rejected OpenFailed, Scenario.unopened) /\
  TileCache.clear Cases.no_storage Scenario.unopened
  = (Rejected OpenFailed, Scenario.unopened).
Proof.
  split; [reflexivity|]. split; [reflexivity|].
  destruct (unavailable_storage_rejects Cases.no_storage Scenario.unopened 1 0 0 Cases.png
              eq_refl eq_refl) as (_ & _ & Hsave & _ & _ & Hclear).
  split; [exact Hsave | exact Hclear].
Defined.

Lemma init_idempotent_witness :
  let s1 := snd (TileCache.init Scenario.storage Scenario.unopened) in
  TileCache.init Scenario.storage Scenario.unopened = (Resolved tt, s1) /\
  TileCache.init Scenario.storage s1 = (Resolved tt, s1) /\
  holds s1 {[ TileCache.storeName := ∅ ]} ∅.
Proof.
  intros s1.
  assert (Hinit : TileCache.init Scenario.storage Scenario.unopened = (Resolved tt, s1))
    by reflexivity.
  destruct (init_idempotent Scenario.storage Scenario.unopened s1 Hinit)
    as (Hagain & Hnew & _).
  split; [exact Hinit|]. split; [exact Hagain | exact (Hnew eq_refl)].
Defined.

Lemma rejected_saveTile_is_invisible_witness :
  let s := Cases.store_with [] in
  let s' := snd (TileCache.saveTile Cases.read_only 1 0 0 Cases.png s) in
  TileCache.saveTile Cases.read_only 1 0 0 Cases.png s = (Rejected RequestFailed, s') /\
  fst (TileCache.getTile Cases.read_only 1 0 0 s')
  = fst (TileCache.getTile Cases.read_only 1 0 0 s).
Proof.
  intros s s'.
  assert (Hsave : TileCache.saveTile Cases.read_only 1 0 0 Cases.png s
                  = (Rejected RequestFailed, s')) by (vm_compute; reflexivity).
  split; [exact Hsave|].
  exact (rejected_saveTile_is_invisible Cases.read_only s s' 1 0 0 1 0 0 Cases.png
           RequestFailed Hsave).
Defined.

Lemma clean_run_caches_every_tile_witness :
  let final := mkProgress 4 4 0 (Fin 100) true in
  let w' := snd (TilePreloader.preloadAll 4 Cases.online 4 Scenario.page) in
  TilePreloader.isPreloading (TilePreloader.preloader Scenario.page) = false /\
  TilePreloader.preloadAll 4 Cases.online 4 Scenario.page = (Resolved (Some final), w') /\
  failed final = 0 /\
  forall t, In t Scenario.region -> stored (TilePreloader.cache w') t.
Proof.
  intros final w'.
  assert (Hrun : TilePreloader.preloadAll 4 Cases.online 4 Scenario.page
                 = (Resolved (Some final), w')) by (vm_compute; reflexivity).
  split; [reflexivity|]. split; [exact Hrun|]. split; [reflexivity|].
  exact (proj1 (clean_run_caches_every_tile Cases.online 4 4 Scenario.page w' final
                  (identity_is_reordering Cases.online eq_refl) eq_refl Hrun eq_refl)).
Defined.

Lemma pair_is_cached (t : Tile.t) :
  In t (TilePreloader.tiles (TilePreloader.preloader Cases.cached_page)) ->
  stored (TilePreloader.cache Cases.cached_page) t /\
  TileCache.request_fails (TilePreloader.cacheEnv Cases.online)
    (TileCache.ReqGet (TileCache.getKey (Tile.z t) (Tile.x t) (Tile.y t))) = false.
Proof.
  intros Hin. split; [|reflexivity].
  exists {[ TileCache.storeName :=
              {[ TileCache.getKey 1 0 0 := Cases.png; TileCache.getKey 1 0 1 := Cases.png ]} ]},
         {[ TileCache.getKey 1 0 0 := Cases.png; TileCache.getKey 1 0 1 := Cases.png ]}.
  split; [split; reflexivity|].
  destruct Hin as [<- | [<- | []]]; exists Cases.png; vm_compute; reflexivity.
Defined.

Lemma cached_tiles_are_not_fetched_witness :
  TilePreloader.isPreloading (TilePreloader.preloader Cases.cached_page) = false /\
  1 <= 4 /\
  (length (TilePreloader.tiles (TilePreloader.preloader Cases.cached_page)) < 3)%nat /\
  exists final w',
    TilePreloader.preloadAll 3 Cases.online 4 Cases.cached_page
    = (Resolved (Some final), w') /\
    loaded final = 2 /\ failed final = 0 /\
    TilePreloader.fetches w' = [] /\
    TilePreloader.cache w' = TilePreloader.cache Cases.cached_page.
Proof.
  assert (Hc : 1 <= 4) by lia.
  assert (Hfuel : (length (TilePreloader.tiles (TilePreloader.preloader Cases.cached_page))
                   < 3)%nat) by (simpl; lia).
  split; [reflexivity|]. split; [exact Hc|]. split; [exact Hfuel|].
  destruct (cached_tiles_are_not_fetched Cases.online 3 4 Cases.cached_page
              (identity_is_reordering Cases.online eq_refl) eq_refl Hc Hfuel pair_is_cached)
    as (final & w' & Hrun & Hl & Hf & Hfetch & Hcache).
  exists final, w'. auto.
Defined.

Lemma unavailable_storage_fails_every_tile_witness :
  TilePreloader.isPreloading (TilePreloader.preloader Scenario.page) = false /\
  1 <= 4 /\
  (length (TilePreloader.tiles (TilePreloader.preloader Scenario.page)) < 5)%nat /\
  TileCache.open_ok (TilePreloader.cacheEnv Cases.online_without_storage) = false /\
  TileCache.db (TilePreloader.cache Scenario.page) = false /\
  exists final w',
    TilePreloader.preloadAll 5 Cases.online_without_storage 4 Scenario.page
    = (Resolved (Some final), w') /\
    loaded final = 0 /\ failed final = 4 /\
    length (TilePreloader.fetches w') = 4%nat.
Proof.
  assert (Hc : 1 <= 4) by lia.
  assert (Hfuel : (length (TilePreloader.tiles (TilePreloader.preloader Scenario.page))
                   < 5)%nat) by (simpl; lia).
  split; [reflexivity|]. split; [exact Hc|]. split; [exact Hfuel|].
  split; [reflexivity|]. split; [reflexivity|].
  destruct (unavailable_storage_fails_every_tile Cases.online_without_storage 5 4
              Scenario.page
              (identity_is_reordering Cases.online_without_storage eq_refl)
              eq_refl Hc Hfuel eq_refl eq_refl)
    as (final & w' & order & Hrun & Hl & Hf & Hperm & Hfetch & _).
  exists final, w'. split; [exact Hrun|]. split; [exact Hl|]. split; [exact Hf|].
  rewrite Hfetch. cbn [TilePreloader.fetches Scenario.page app].
  rewrite length_map. apply (Permutation_length Hperm).
Defined.

Lemma one_update_per_tile_witness :
  let final := mkProgress 4 3 1 (Fin 100) true in
  let w' := snd (TilePreloader.preloadAll 4 Scenario.env 4 Scenario.page) in
  TilePreloader.isPreloading (TilePreloader.preloader Scenario.page) = false /\
  TilePreloader.preloadAll 4 Scenario.env 4 Scenario.page = (Resolved (Some final), w') /\
  length (TilePreloader.events w') = 5%nat.
Proof.
  intros final w'.
  assert (Hrun : TilePreloader.preloadAll 4 Scenario.env 4 Scenario.page
                 = (Resolved (Some final), w')) by (vm_compute; reflexivity).
  split; [reflexivity|]. split; [exact Hrun|].
  destruct (one_update_per_tile Scenario.env 4 4 Scenario.page w' final
              reversal_is_reordering eq_refl Hrun)
    as (first & rest & Hev & _ & Hlen & _).
  rewrite Hev. cbn [TilePreloader.events Scenario.page app length]. rewrite Hlen.
  reflexivity.
Defined.

Lemma finished_run_sets_the_flag_witness :
  let final := mkProgress 4 3 1 (Fin 100) true in
  let w' := snd (TilePreloader.preloadAll 4 Scenario.env 4 Scenario.page) in
  TilePreloader.isPreloading (TilePreloader.preloader Scenario.page) = false /\
  TilePreloader.tiles (TilePreloader.preloader Scenario.page) <> [] /\
  TilePreloader.preloadAll 4 Scenario.env 4 Scenario.page = (Resolved (Some final), w') /\
  useTilePreload.items
    (snd (useTilePreload.handleProgress Scenario.host final Scenario.device))
    !! useTilePreload.PRELOAD_STATUS_KEY = Some "true"%string.
Proof.
  intros final w'.
  assert (Hne : TilePreloader.tiles (TilePreloader.preloader Scenario.page) <> [])
    by discriminate.
  assert (Hrun : TilePreloader.preloadAll 4 Scenario.env 4 Scenario.page
                 = (Resolved (Some final), w')) by (vm_compute; reflexivity).
  split; [reflexivity|]. split; [exact Hne|]. split; [exact Hrun|].
  destruct (finished_run_sets_the_flag Scenario.env 4 4 Scenario.page w' final
              Scenario.host Scenario.device reversal_is_reordering eq_refl Hne Hrun)
    as (_ & _ & Hflag).
  exact (proj1 (Hflag eq_refl)).
Defined.

Lemma empty_run_never_sets_the_flag_witness :
  TilePreloader.isPreloading (TilePreloader.preloader Cases.empty_page) = false /\
  TilePreloader.tiles (TilePreloader.preloader Cases.empty_page) = [] /\
  exists w',
    TilePreloader.preloadAll 1 Scenario.env 0 Cases.empty_page
    = (Resolved (Some empty_progress), w') /\
    useTilePreload.items
      (snd (useTilePreload.handleProgress Scenario.host empty_progress Scenario.device))
    = useTilePreload.items Scenario.device.
Proof.
  split; [reflexivity|]. split; [reflexivity|].
  destruct (empty_run_never_sets_the_flag Scenario.env 0 0 Cases.empty_page
              Scenario.host Scenario.device reversal_is_reordering eq_refl eq_refl)
    as (w' & Hrun & _ & _ & _ & Hitems & _).
  exists w'. split; [exact Hrun | exact Hitems].
Defined.

(** The tile layer *)

Lemma store_with_holds (blob : Blob) :
  holds (CachedTileLayer.cache (Cases.map_on (Cases.store_with blob)))
    {[ TileCache.storeName := {[ TileCache.getKey 1 0 0 := blob ]} ]}
    {[ TileCache.getKey 1 0 0 := blob ]}.
Proof. split; reflexivity. Defined.

Lemma empty_store_holds :
  holds (CachedTileLayer.cache (Cases.map_on Cases.empty_store))
    {[ TileCache.storeName := ∅ ]} ∅.
Proof. split; reflexivity. Defined.

Lemma cached_tile_is_served_locally_witness :
  let env := Cases.layer TilePreloader.FetchRejects in
  let w := Cases.map_on (Cases.store_with Cases.png) in
  CachedTileLayer.decodes env Cases.png = true /\
  exists img w',
    CachedTileLayer.createTile 0 env Cases.origin w = (Resolved img, w') /\
    CachedTileLayer.fetches w' = [] /\
    CachedTileLayer.signals w' = [CachedTileLayer.TileOnLoad false].
Proof.
  intros env w. split; [reflexivity|].
  destruct (cached_tile_is_served_locally env 0 Cases.origin w _ _ Cases.png
              (store_with_holds Cases.png) (lookup_singleton_eq _ _) eq_refl eq_refl)
    as (img & w' & Hrun & Hf & _ & Hs & _).
  exists img, w'. split; [exact Hrun|]. split; [exact Hf | exact Hs].
Defined.

Lemma missing_tile_is_fetched_and_stored_witness :
  let env := Cases.layer (TilePreloader.Response true (Some Cases.png)) in
  let w := Cases.map_on Cases.empty_store in
  CachedTileLayer.network env (CachedTileLayer.getTileUrl env Cases.origin)
  = TilePreloader.Response true (Some Cases.png) /\
  CachedTileLayer.decodes env Cases.png = true /\
  exists img w',
    CachedTileLayer.createTile 1 env Cases.origin w = (Resolved img, w') /\
    CachedTileLayer.fetches w' = [CachedTileLayer.getTileUrl env Cases.origin] /\
    TileCache.getTile Scenario.storage 1 0 0 (CachedTileLayer.cache w')
    = (Resolved (Some Cases.png), CachedTileLayer.cache w').
Proof.
  intros env w. split; [reflexivity|]. split; [reflexivity|].
  destruct (missing_tile_is_fetched_and_stored env 0 Cases.origin w _ _ Cases.png
              empty_store_holds (lookup_empty _) eq_refl eq_refl eq_refl)
    as (img & w' & Hrun & Hf & _ & _ & Hstore).
  exists img, w'. split; [exact Hrun|]. split; [exact Hf|]. exact (proj1 Hstore).
Defined.

Lemma failed_fetch_is_a_tile_error_witness :
  let env := Cases.layer TilePreloader.FetchRejects in
  let w := Cases.map_on Cases.empty_store in
  exists img w',
    CachedTileLayer.createTile 1 env Cases.origin w = (Resolved img, w') /\
    CachedTileLayer.signals w' = [CachedTileLayer.TileOnError false] /\
    CachedTileLayer.src img = None.
Proof.
  intros env w.
  assert (Hmiss : forall b,
            fst (TileCache.getTile (CachedTileLayer.cacheEnv env)
                   (Tile.z Cases.origin) (Tile.x Cases.origin) (Tile.y Cases.origin)
                   (CachedTileLayer.cache w)) <> Resolved (Some b))
    by (intros b; vm_compute; discriminate).
  destruct (failed_fetch_is_a_tile_error env 0 Cases.origin w Hmiss I)
    as (img & w' & Hrun & _ & Hs & _ & _ & Hsrc).
  exists img, w'. split; [exact Hrun|]. split; [exact Hs | exact Hsrc].
Defined.

Lemma corrupt_cached_tile_is_refetched_witness :
  let env := Cases.layer (TilePreloader.Response true (Some Cases.png)) in
  let w := Cases.map_on (Cases.store_with []) in
  CachedTileLayer.decodes env [] = false /\
  CachedTileLayer.decodes env Cases.png = true /\
  exists img w',
    CachedTileLayer.createTile 1 env Cases.origin w = (Resolved img, w') /\
    CachedTileLayer.signals w' = [CachedTileLayer.TileOnLoad false] /\
    TileCache.getTile Scenario.storage 1 0 0 (CachedTileLayer.cache w')
    = (Resolved (Some Cases.png), CachedTileLayer.cache w').
Proof.
  intros env w. split; [reflexivity|]. split; [reflexivity|].
  destruct (corrupt_cached_tile_is_refetched env 0 Cases.origin w _ _ [] Cases.png
              (store_with_holds []) (lookup_singleton_eq _ _)
              eq_refl eq_refl eq_refl eq_refl eq_refl)
    as (img & w' & Hrun & _ & Hs & Hget & _).
  exists img, w'. split; [exact Hrun|]. split; [exact Hs | exact Hget].
Defined.

Lemma undecodable_blob_is_stored_witness :
  let env := Cases.layer (TilePreloader.Response true (Some [])) in
  let w := Cases.map_on Cases.empty_store in
  CachedTileLayer.decodes env [] = false /\
  exists img w',
    CachedTileLayer.createTile 1 env Cases.origin w = (Resolved img, w') /\
    CachedTileLayer.signals w' = [CachedTileLayer.TileOnError true] /\
    TileCache.getTile Scenario.storage 1 0 0 (CachedTileLayer.cache w')
    = (Resolved (Some []), CachedTileLayer.cache w').
Proof.
  intros env w. split; [reflexivity|].
  destruct (undecodable_blob_is_stored env 0 Cases.origin w _ _ []
              empty_store_holds (lookup_empty _) eq_refl eq_refl eq_refl eq_refl)
    as (img & w' & Hrun & _ & Hs & Hget & _).
  exists img, w'. split; [exact Hrun|]. split; [exact Hs | exact Hget].
Defined.

Lemma undecodable_tile_is_refetched_forever_witness :
  let env := Cases.layer (TilePreloader.Response true (Some [])) in
  let w := Cases.map_on (Cases.store_with []) in
  CachedTileLayer.decodes env [] = false /\
  exists w',
    CachedTileLayer.createTile 3 env Cases.origin w = (Pending, w') /\
    length (CachedTileLayer.fetches w') = 3%nat /\
    CachedTileLayer.signals w' = [].
Proof.
  intros env w. split; [reflexivity|].
  destruct (undecodable_tile_is_refetched_forever env 3 Cases.origin w _ _ [] []
              (store_with_holds []) (lookup_singleton_eq _ _)
              eq_refl eq_refl eq_refl eq_refl)
    as (w' & Hrun & Hf & Hs).
  exists w'. split; [exact Hrun|]. split; [rewrite Hf; reflexivity | exact Hs].
Defined.

(** The hook *)

Lemma flag_survives_restart_witness :
  isComplete Scenario.done && js_ge (percentage Scenario.done) 90 = true /\
  useTilePreload.hook
    (snd (useTilePreload.checkPreloadStatus Scenario.host
            (restart (snd (useTilePreload.handleProgress Scenario.host Scenario.done
                             Scenario.device)))))
  = useTilePreload.mk None true false.
Proof.
  split; [reflexivity|].
  exact (flag_survives_restart Scenario.host Scenario.done Scenario.device
           eq_refl eq_refl eq_refl).
Defined.

Lemma reset_survives_restart_witness :
  useTilePreload.call_fails Scenario.host
    (useTilePreload.RemoveItem useTilePreload.PRELOAD_STATUS_KEY) = false /\
  useTilePreload.hook
    (snd (useTilePreload.checkPreloadStatus Scenario.host
            (restart (snd (useTilePreload.resetPreloadStatus Scenario.host
                             (snd (useTilePreload.handleProgress Scenario.host
                                     Scenario.done Scenario.device)))))))
  = useTilePreload.initial.
Proof.
  split; [reflexivity|].
  exact (proj2 (reset_survives_restart Scenario.host
                  (snd (useTilePreload.handleProgress Scenario.host Scenario.done
                          Scenario.device)) eq_refl)).
Defined.

Lemma storage_errors_are_swallowed_witness :
  useTilePreload.call_fails Cases.broken_host
    (useTilePreload.SetItem useTilePreload.PRELOAD_STATUS_KEY "true") = true /\
  fst (useTilePreload.handleProgress Cases.broken_host Scenario.done Scenario.device)
  = Resolved tt /\
  useTilePreload.hook
    (snd (useTilePreload.handleProgress Cases.broken_host Scenario.done Scenario.device))
  = useTilePreload.mk (Some Scenario.done) false true.
Proof.
  split; [reflexivity|].
  destruct (storage_errors_are_swallowed Cases.broken_host Scenario.done Scenario.device
              eq_refl eq_refl eq_refl) as ((Hres & _ & Hhook) & _ & _).
  split; [exact Hres | exact Hhook].
Defined.

End MoreScenarios.
